(** * The aim-trainer engine of [js/game.js]

    A shallow embedding of the [Game] module: its private variables become the
    fields of one record, its functions become functions on that record, and
    the browser services the module relies on (the timer table behind
    [setInterval]/[setTimeout]/[clearInterval], the [localStorage] item of the
    leaderboard, the canvas size) are fields of the same record.  DOM updates,
    drawing, sounds and accessibility announcements have no effect on the
    variables and are left out. *)

From Stdlib Require Import ZArith Lia Bool List String Floats Uint63.
From stdpp Require Import base option list sorting gmap.

Local Open Scope Z_scope.

(** ** JavaScript numbers

    Variables that only ever hold integers ([score], [timeLeft], the counters,
    the percentage) are kept in [Z]; this is exact below 2^53.  Coordinates,
    identifiers and the quotient inside [updateAccuracy] are IEEE-754 doubles,
    the kernel's binary64 [float]. *)

Module Number.

(** An integer-valued variable read as a double (exact from 0 to 2^53). *)
Definition of_Z (z : Z) : float := PrimFloat.of_uint63 (Uint63.of_Z z).

(** [Math.round]: the integer closest to [v], a tie going towards +infinity,
    that is [floor (v + 1/2)], computed exactly from the significand and the
    exponent of [v]: for [v = n * 2^e] with [e < 0] it is
    [floor ((2 * n + 2^(-e)) / 2^(-e + 1))], the division being a shift.
    NaN and the infinities are not integers; they cannot arise where the
    engine rounds (the divisor is positive there) and are sent to 0. *)
Definition Math_round (v : float) : Z :=
  match Prim2SF v with
  | S754_finite s m e =>
      let n := if s then Z.neg m else Z.pos m in
      if 0 <=? e then Z.shiftl n e
      else Z.shiftr (2 * n + Z.shiftl 1 (- e)) (- e + 1)
  | _ => 0
  end.

(** [Math.pow(v, 2)], taken to be the double product [v * v]. *)
Definition Math_pow2 (v : float) : float := (v * v)%float.

Definition Math_sqrt (v : float) : float := PrimFloat.sqrt v.

(** [Number.MAX_SAFE_INTEGER] and [Number.isSafeInteger]: up to 2^53 - 1 in
    absolute value every integer is a double, and the sums, differences and
    products of such integers that stay in that range are exact. *)
Definition MAX_SAFE_INTEGER : Z := 2 ^ 53 - 1.

Definition isSafeInteger (z : Z) : Prop :=
  - MAX_SAFE_INTEGER <= z <= MAX_SAFE_INTEGER.

End Number.

(** ** Configuration: the [config] object *)

Inductive Difficulty := easy | normal | hard | expert.
Inductive Mode := timed | endless.

Module config.

Definition gameDuration (m : Mode) : Z :=
  match m with timed => 30 | endless => 999999 end.

Definition targetSpawnRate (d : Difficulty) : Z :=
  match d with easy => 1500 | normal => 1000 | hard => 700 | expert => 500 end.

Definition targetSize (d : Difficulty) : Z :=
  match d with easy => 60 | normal => 50 | hard => 40 | expert => 30 end.

Definition targetLifetime (d : Difficulty) : Z :=
  match d with easy => 3000 | normal => 2000 | hard => 1500 | expert => 1000 end.

Definition scoreMultiplier (d : Difficulty) : Z :=
  match d with easy => 1 | normal => 2 | hard => 3 | expert => 5 end.

End config.

(** ** Data *)

(** A target object, as [spawnTarget] builds it. *)
Module Target.
Record t := mk {
  id : float;
  x : float;
  y : float;
  radius : float;
  spawnTime : Z;
  lifetime : Z;
  isHover : bool;
  opacity : float
}.
End Target.

(** A leaderboard entry, as [saveToLeaderboard] builds it.  [date] is the
    instant ([new Date()], in milliseconds) whose ISO rendering the source
    stores. *)
Module Entry.
Record t := mk {
  score : Z;
  accuracy : Z;
  difficulty : Difficulty;
  mode : Mode;
  date : Z
}.
End Entry.

(** JSON values other than arrays. *)
Inductive Json :=
| JNull
| JBool (b : bool)
| JNumber (n : Z)
| JString (s : string)
| JObject (keys : list string).

(** What the variable [leaderboard] can hold: an array of entries (initially
    the empty array), or whatever else [JSON.parse] returned.  Arrays whose
    elements are not entry objects are outside the model. *)
Inductive JsValue :=
| Entries (l : list Entry.t)
| Other (v : Json).

(** The text stored under the key ['aimTrainerLeaderboard'], by what
    [JSON.parse] makes of it: the empty string, a text that parses to a value,
    or a text that [JSON.parse] rejects. *)
Inductive StoredText :=
| EmptyText
| JsonText (v : JsValue)
| NotJson (s : string).

(** [localStorage.getItem]: [None] is JavaScript's [null]. *)
Definition StorageItem := option StoredText.

(** The browser's list of active timers.  A repeating timer stays in the
    table until [clearInterval]; a timeout leaves it when it fires.  The expiry
    closure of [spawnTarget] captures its target, of which it reads the [id].
    Delays are not modelled: any active timer may fire next. *)
Inductive Timer :=
| ClockInterval
| SpawnInterval
| ExpiryTimeout (target_id : float).

(** The module's variables, then the browser's side.  Of the DOM
    references only [gameCanvas] matters to the variables: it is undefined
    ([false]) until [init] looks the element up, and the page is taken to
    contain the canvas, of the size [canvasWidth] by [canvasHeight]. *)
Record Game := mkGame {
  isInitialized : bool;
  isPlaying : bool;
  isPaused : bool;
  score : Z;
  timeLeft : Z;
  targetsHit : Z;
  targetsMissed : Z;
  accuracy : Z;
  gameTimer : option nat;
  targetSpawnTimer : option nat;
  currentDifficulty : Difficulty;
  currentMode : Mode;
  leaderboard : JsValue;
  gameCanvas : bool;
  activeTargets : list Target.t;
  canvasWidth : Z;
  canvasHeight : Z;
  timers : gmap nat Timer;
  nextHandle : nat;
  storage : StorageItem
}.

(** Assignment to a variable: [g <| v := e |>] is [g] after [v = e]. *)
Class Assign {R E : Type} (variable : R -> E) := assign : E -> R -> R.
Arguments assign {R E} variable {Assign} _ _ /.
Notation "g <| v := e |>" := (assign v e g)
  (at level 1, v at level 1, e at level 99, left associativity,
   format "g  <| v  :=  e |>").

#[global] Instance assign_isInitialized : Assign isInitialized :=
  fun v g =>
  {| isInitialized := v; isPlaying := isPlaying g; isPaused := isPaused g;
     score := score g; timeLeft := timeLeft g; targetsHit := targetsHit g;
     targetsMissed := targetsMissed g; accuracy := accuracy g;
     gameTimer := gameTimer g; targetSpawnTimer := targetSpawnTimer g;
     currentDifficulty := currentDifficulty g; currentMode := currentMode g;
     leaderboard := leaderboard g; gameCanvas := gameCanvas g;
     activeTargets := activeTargets g; canvasWidth := canvasWidth g;
     canvasHeight := canvasHeight g; timers := timers g;
     nextHandle := nextHandle g; storage := storage g |}.

#[global] Instance assign_isPlaying : Assign isPlaying :=
  fun v g =>
  {| isInitialized := isInitialized g; isPlaying := v; isPaused := isPaused g;
     score := score g; timeLeft := timeLeft g; targetsHit := targetsHit g;
     targetsMissed := targetsMissed g; accuracy := accuracy g;
     gameTimer := gameTimer g; targetSpawnTimer := targetSpawnTimer g;
     currentDifficulty := currentDifficulty g; currentMode := currentMode g;
     leaderboard := leaderboard g; gameCanvas := gameCanvas g;
     activeTargets := activeTargets g; canvasWidth := canvasWidth g;
     canvasHeight := canvasHeight g; timers := timers g;
     nextHandle := nextHandle g; storage := storage g |}.

#[global] Instance assign_isPaused : Assign isPaused :=
  fun v g =>
  {| isInitialized := isInitialized g; isPlaying := isPlaying g; isPaused := v;
     score := score g; timeLeft := timeLeft g; targetsHit := targetsHit g;
     targetsMissed := targetsMissed g; accuracy := accuracy g;
     gameTimer := gameTimer g; targetSpawnTimer := targetSpawnTimer g;
     currentDifficulty := currentDifficulty g; currentMode := currentMode g;
     leaderboard := leaderboard g; gameCanvas := gameCanvas g;
     activeTargets := activeTargets g; canvasWidth := canvasWidth g;
     canvasHeight := canvasHeight g; timers := timers g;
     nextHandle := nextHandle g; storage := storage g |}.

#[global] Instance assign_score : Assign score :=
  fun v g =>
  {| isInitialized := isInitialized g; isPlaying := isPlaying g;
     isPaused := isPaused g; score := v; timeLeft := timeLeft g;
     targetsHit := targetsHit g; targetsMissed := targetsMissed g;
     accuracy := accuracy g; gameTimer := gameTimer g;
     targetSpawnTimer := targetSpawnTimer g;
     currentDifficulty := currentDifficulty g; currentMode := currentMode g;
     leaderboard := leaderboard g; gameCanvas := gameCanvas g;
     activeTargets := activeTargets g; canvasWidth := canvasWidth g;
     canvasHeight := canvasHeight g; timers := timers g;
     nextHandle := nextHandle g; storage := storage g |}.

#[global] Instance assign_timeLeft : Assign timeLeft :=
  fun v g =>
  {| isInitialized := isInitialized g; isPlaying := isPlaying g;
     isPaused := isPaused g; score := score g; timeLeft := v;
     targetsHit := targetsHit g; targetsMissed := targetsMissed g;
     accuracy := accuracy g; gameTimer := gameTimer g;
     targetSpawnTimer := targetSpawnTimer g;
     currentDifficulty := currentDifficulty g; currentMode := currentMode g;
     leaderboard := leaderboard g; gameCanvas := gameCanvas g;
     activeTargets := activeTargets g; canvasWidth := canvasWidth g;
     canvasHeight := canvasHeight g; timers := timers g;
     nextHandle := nextHandle g; storage := storage g |}.

#[global] Instance assign_targetsHit : Assign targetsHit :=
  fun v g =>
  {| isInitialized := isInitialized g; isPlaying := isPlaying g;
     isPaused := isPaused g; score := score g; timeLeft := timeLeft g;
     targetsHit := v; targetsMissed := targetsMissed g; accuracy := accuracy g;
     gameTimer := gameTimer g; targetSpawnTimer := targetSpawnTimer g;
     currentDifficulty := currentDifficulty g; currentMode := currentMode g;
     leaderboard := leaderboard g; gameCanvas := gameCanvas g;
     activeTargets := activeTargets g; canvasWidth := canvasWidth g;
     canvasHeight := canvasHeight g; timers := timers g;
     nextHandle := nextHandle g; storage := storage g |}.

#[global] Instance assign_targetsMissed : Assign targetsMissed :=
  fun v g =>
  {| isInitialized := isInitialized g; isPlaying := isPlaying g;
     isPaused := isPaused g; score := score g; timeLeft := timeLeft g;
     targetsHit := targetsHit g; targetsMissed := v; accuracy := accuracy g;
     gameTimer := gameTimer g; targetSpawnTimer := targetSpawnTimer g;
     currentDifficulty := currentDifficulty g; currentMode := currentMode g;
     leaderboard := leaderboard g; gameCanvas := gameCanvas g;
     activeTargets := activeTargets g; canvasWidth := canvasWidth g;
     canvasHeight := canvasHeight g; timers := timers g;
     nextHandle := nextHandle g; storage := storage g |}.

#[global] Instance assign_accuracy : Assign accuracy :=
  fun v g =>
  {| isInitialized := isInitialized g; isPlaying := isPlaying g;
     isPaused := isPaused g; score := score g; timeLeft := timeLeft g;
     targetsHit := targetsHit g; targetsMissed := targetsMissed g;
     accuracy := v; gameTimer := gameTimer g;
     targetSpawnTimer := targetSpawnTimer g;
     currentDifficulty := currentDifficulty g; currentMode := currentMode g;
     leaderboard := leaderboard g; gameCanvas := gameCanvas g;
     activeTargets := activeTargets g; canvasWidth := canvasWidth g;
     canvasHeight := canvasHeight g; timers := timers g;
     nextHandle := nextHandle g; storage := storage g |}.

#[global] Instance assign_gameTimer : Assign gameTimer :=
  fun v g =>
  {| isInitialized := isInitialized g; isPlaying := isPlaying g;
     isPaused := isPaused g; score := score g; timeLeft := timeLeft g;
     targetsHit := targetsHit g; targetsMissed := targetsMissed g;
     accuracy := accuracy g; gameTimer := v;
     targetSpawnTimer := targetSpawnTimer g;
     currentDifficulty := currentDifficulty g; currentMode := currentMode g;
     leaderboard := leaderboard g; gameCanvas := gameCanvas g;
     activeTargets := activeTargets g; canvasWidth := canvasWidth g;
     canvasHeight := canvasHeight g; timers := timers g;
     nextHandle := nextHandle g; storage := storage g |}.

#[global] Instance assign_targetSpawnTimer : Assign targetSpawnTimer :=
  fun v g =>
  {| isInitialized := isInitialized g; isPlaying := isPlaying g;
     isPaused := isPaused g; score := score g; timeLeft := timeLeft g;
     targetsHit := targetsHit g; targetsMissed := targetsMissed g;
     accuracy := accuracy g; gameTimer := gameTimer g; targetSpawnTimer := v;
     currentDifficulty := currentDifficulty g; currentMode := currentMode g;
     leaderboard := leaderboard g; gameCanvas := gameCanvas g;
     activeTargets := activeTargets g; canvasWidth := canvasWidth g;
     canvasHeight := canvasHeight g; timers := timers g;
     nextHandle := nextHandle g; storage := storage g |}.

#[global] Instance assign_currentDifficulty : Assign currentDifficulty :=
  fun v g =>
  {| isInitialized := isInitialized g; isPlaying := isPlaying g;
     isPaused := isPaused g; score := score g; timeLeft := timeLeft g;
     targetsHit := targetsHit g; targetsMissed := targetsMissed g;
     accuracy := accuracy g; gameTimer := gameTimer g;
     targetSpawnTimer := targetSpawnTimer g; currentDifficulty := v;
     currentMode := currentMode g; leaderboard := leaderboard g;
     gameCanvas := gameCanvas g; activeTargets := activeTargets g;
     canvasWidth := canvasWidth g; canvasHeight := canvasHeight g;
     timers := timers g; nextHandle := nextHandle g; storage := storage g |}.

#[global] Instance assign_currentMode : Assign currentMode :=
  fun v g =>
  {| isInitialized := isInitialized g; isPlaying := isPlaying g;
     isPaused := isPaused g; score := score g; timeLeft := timeLeft g;
     targetsHit := targetsHit g; targetsMissed := targetsMissed g;
     accuracy := accuracy g; gameTimer := gameTimer g;
     targetSpawnTimer := targetSpawnTimer g;
     currentDifficulty := currentDifficulty g; currentMode := v;
     leaderboard := leaderboard g; gameCanvas := gameCanvas g;
     activeTargets := activeTargets g; canvasWidth := canvasWidth g;
     canvasHeight := canvasHeight g; timers := timers g;
     nextHandle := nextHandle g; storage := storage g |}.

#[global] Instance assign_leaderboard : Assign leaderboard :=
  fun v g =>
  {| isInitialized := isInitialized g; isPlaying := isPlaying g;
     isPaused := isPaused g; score := score g; timeLeft := timeLeft g;
     targetsHit := targetsHit g; targetsMissed := targetsMissed g;
     accuracy := accuracy g; gameTimer := gameTimer g;
     targetSpawnTimer := targetSpawnTimer g;
     currentDifficulty := currentDifficulty g; currentMode := currentMode g;
     leaderboard := v; gameCanvas := gameCanvas g;
     activeTargets := activeTargets g; canvasWidth := canvasWidth g;
     canvasHeight := canvasHeight g; timers := timers g;
     nextHandle := nextHandle g; storage := storage g |}.

#[global] Instance assign_gameCanvas : Assign gameCanvas :=
  fun v g =>
  {| isInitialized := isInitialized g; isPlaying := isPlaying g;
     isPaused := isPaused g; score := score g; timeLeft := timeLeft g;
     targetsHit := targetsHit g; targetsMissed := targetsMissed g;
     accuracy := accuracy g; gameTimer := gameTimer g;
     targetSpawnTimer := targetSpawnTimer g;
     currentDifficulty := currentDifficulty g; currentMode := currentMode g;
     leaderboard := leaderboard g; gameCanvas := v;
     activeTargets := activeTargets g; canvasWidth := canvasWidth g;
     canvasHeight := canvasHeight g; timers := timers g;
     nextHandle := nextHandle g; storage := storage g |}.

#[global] Instance assign_activeTargets : Assign activeTargets :=
  fun v g =>
  {| isInitialized := isInitialized g; isPlaying := isPlaying g;
     isPaused := isPaused g; score := score g; timeLeft := timeLeft g;
     targetsHit := targetsHit g; targetsMissed := targetsMissed g;
     accuracy := accuracy g; gameTimer := gameTimer g;
     targetSpawnTimer := targetSpawnTimer g;
     currentDifficulty := currentDifficulty g; currentMode := currentMode g;
     leaderboard := leaderboard g; gameCanvas := gameCanvas g;
     activeTargets := v; canvasWidth := canvasWidth g;
     canvasHeight := canvasHeight g; timers := timers g;
     nextHandle := nextHandle g; storage := storage g |}.

#[global] Instance assign_timers : Assign timers :=
  fun v g =>
  {| isInitialized := isInitialized g; isPlaying := isPlaying g;
     isPaused := isPaused g; score := score g; timeLeft := timeLeft g;
     targetsHit := targetsHit g; targetsMissed := targetsMissed g;
     accuracy := accuracy g; gameTimer := gameTimer g;
     targetSpawnTimer := targetSpawnTimer g;
     currentDifficulty := currentDifficulty g; currentMode := currentMode g;
     leaderboard := leaderboard g; gameCanvas := gameCanvas g;
     activeTargets := activeTargets g; canvasWidth := canvasWidth g;
     canvasHeight := canvasHeight g; timers := v; nextHandle := nextHandle g;
     storage := storage g |}.

#[global] Instance assign_nextHandle : Assign nextHandle :=
  fun v g =>
  {| isInitialized := isInitialized g; isPlaying := isPlaying g;
     isPaused := isPaused g; score := score g; timeLeft := timeLeft g;
     targetsHit := targetsHit g; targetsMissed := targetsMissed g;
     accuracy := accuracy g; gameTimer := gameTimer g;
     targetSpawnTimer := targetSpawnTimer g;
     currentDifficulty := currentDifficulty g; currentMode := currentMode g;
     leaderboard := leaderboard g; gameCanvas := gameCanvas g;
     activeTargets := activeTargets g; canvasWidth := canvasWidth g;
     canvasHeight := canvasHeight g; timers := timers g; nextHandle := v;
     storage := storage g |}.

#[global] Instance assign_storage : Assign storage :=
  fun v g =>
  {| isInitialized := isInitialized g; isPlaying := isPlaying g;
     isPaused := isPaused g; score := score g; timeLeft := timeLeft g;
     targetsHit := targetsHit g; targetsMissed := targetsMissed g;
     accuracy := accuracy g; gameTimer := gameTimer g;
     targetSpawnTimer := targetSpawnTimer g;
     currentDifficulty := currentDifficulty g; currentMode := currentMode g;
     leaderboard := leaderboard g; gameCanvas := gameCanvas g;
     activeTargets := activeTargets g; canvasWidth := canvasWidth g;
     canvasHeight := canvasHeight g; timers := timers g;
     nextHandle := nextHandle g; storage := v |}.

#[global] Instance assign_isHover : Assign Target.isHover :=
  fun v t =>
  {| Target.id := Target.id t; Target.x := Target.x t; Target.y := Target.y t;
     Target.radius := Target.radius t; Target.spawnTime := Target.spawnTime t;
     Target.lifetime := Target.lifetime t; Target.isHover := v;
     Target.opacity := Target.opacity t |}.

(** The module as it is right after the script is loaded. *)
Definition loaded (width height : Z) (item : StorageItem) : Game := {|
  isInitialized := false;
  isPlaying := false;
  isPaused := false;
  score := 0;
  timeLeft := 30;
  targetsHit := 0;
  targetsMissed := 0;
  accuracy := 100;
  gameTimer := None;
  targetSpawnTimer := None;
  currentDifficulty := normal;
  currentMode := timed;
  leaderboard := Entries [];
  gameCanvas := false;
  activeTargets := [];
  canvasWidth := width;
  canvasHeight := height;
  timers := ∅;
  nextHandle := 1;
  storage := item
|}.

(** How a call ends: it returns, or an exception leaves it.  The variables
    keep whatever was assigned before the exception.  What is recorded is
    the outcome of the module's own statements.  [startGame], [pauseGame],
    [resumeGame] and [endGame] end, after their last assignment, with a call
    into another module, [window.Accessibility.announceStatusChange], which
    assigns no variable of the game; whether that call returns or throws
    depends on the rest of the page and is not recorded here. *)
Inductive JsError := TypeError | SyntaxError | ReferenceError.
Inductive Completion := Returned | Threw (err : JsError).

(** What the environment supplies to a callback: the clock ([Date.now()] and
    [new Date()], taken to give one value within a callback) and the three
    [Math.random()] draws of [spawnTarget], in the order taken. *)
Record Env := mkEnv {
  now : Z;
  random_id : float;
  random_x : float;
  random_y : float
}.

(** ** Timers *)

(** [setInterval] and [setTimeout]: the callback enters the table under a
    fresh handle, which is returned. *)
Definition setTimer (cb : Timer) (g : Game) : Game * nat :=
  (g <| timers := <[nextHandle g := cb]> (timers g) |>
     <| nextHandle := S (nextHandle g) |>,
   nextHandle g).

Definition clearInterval (handle : option nat) (g : Game) : Game :=
  match handle with
  | Some h => g <| timers := delete h (timers g) |>
  | None => g
  end.

(** ** Scoring *)

Definition updateAccuracy (g : Game) : Game :=
  let total := targetsHit g + targetsMissed g in
  g <| accuracy :=
         if 0 <? total
         then Number.Math_round
                (Number.of_Z (targetsHit g) / Number.of_Z total * 100)%float
         else 100 |>.

(** [score] is a double in the source.  The sum and the product below are
    those of the source as long as they are safe integers; beyond 2^53 the
    double rounds (and ends at Infinity) where the integer here does not.
    On a page used through its listeners and timers the score stays between
    0 and 5000 ([run_sound]); it leaves the range only through repeated
    direct calls of the exported [endGame], or through the ticks of a clock
    leaked by a direct call of [resumeGame]. *)
Definition calculateFinalScore (g : Game) : Game :=
  let accuracyBonus := accuracy g * 10 in
  let g := g <| score := score g + accuracyBonus |> in
  g <| score := score g * config.scoreMultiplier (currentDifficulty g) |>.

Definition resetGameState (g : Game) : Game :=
  updateAccuracy
    (g <| score := 0 |>
       <| timeLeft := config.gameDuration (currentMode g) |>
       <| targetsHit := 0 |>
       <| targetsMissed := 0 |>
       <| accuracy := 100 |>
       <| activeTargets := [] |>).

(** ** Targets *)

(** [Array.prototype.findIndex]; [None] is the source's [-1]. *)
Fixpoint findIndex {A : Type} (p : A -> bool) (l : list A) : option nat :=
  match l with
  | [] => None
  | a :: l' => if p a then Some 0%nat else S <$> findIndex p l'
  end.

(** The predicate both callbacks search with: [t => t.id === id]. *)
Definition has_id (target_id : float) (t : Target.t) : bool :=
  (Target.id t =? target_id)%float.

Definition distance (x y : float) (target : Target.t) : float :=
  Number.Math_sqrt
    (Number.Math_pow2 (x - Target.x target) +
     Number.Math_pow2 (y - Target.y target))%float.

(** The test of the loop body: [distance <= target.radius]. *)
Definition covers (x y : float) (target : Target.t) : bool :=
  (distance x y target <=? Target.radius target)%float.

(** The loop of [checkTargetHit], [n] being [i + 1]: it runs from the last
    index down to 0 and returns at the first target that covers the point.
    The result is the object found, together with its place in the array
    (which is what identifies the object for [===]). *)
Fixpoint scanDown (targets : list Target.t) (x y : float) (n : nat)
  : option (nat * Target.t) :=
  match n with
  | O => None
  | S i =>
      match targets !! i with
      | Some target =>
          if covers x y target then Some (i, target)
          else scanDown targets x y i
      | None => scanDown targets x y i
      end
  end.

Definition checkTargetHit (x y : float) (g : Game) : option (nat * Target.t) :=
  scanDown (activeTargets g) x y (length (activeTargets g)).

(** The callback [spawnTarget] hands to [setTimeout]. *)
Definition expireTarget (target_id : float) (g : Game) : Game :=
  match findIndex (has_id target_id) (activeTargets g) with
  | Some index =>
      let g := g <| activeTargets := delete index (activeTargets g) |> in
      let g := g <| targetsMissed := targetsMissed g + 1 |> in
      updateAccuracy g
  | None => g
  end.

(** [gameCanvas.width] is read while the target object is being built:
    with [gameCanvas] undefined that is a TypeError, before anything is
    pushed. *)
Definition spawnTarget (env : Env) (g : Game) : Game * Completion :=
  if negb (isPlaying g) || isPaused g then (g, Returned)
  else if negb (gameCanvas g) then (g, Threw TypeError)
  else
    let size := Number.of_Z (config.targetSize (currentDifficulty g)) in
    let target := {|
      Target.id := (Number.of_Z (now env) + random_id env)%float;
      Target.x :=
        (random_x env * (Number.of_Z (canvasWidth g) - size * 2) + size)%float;
      Target.y :=
        (random_y env * (Number.of_Z (canvasHeight g) - size * 2) + size)%float;
      Target.radius := size;
      Target.spawnTime := now env;
      Target.lifetime := config.targetLifetime (currentDifficulty g);
      Target.isHover := false;
      Target.opacity := 1%float
    |} in
    let g := g <| activeTargets := activeTargets g ++ [target] |> in
    ((setTimer (ExpiryTimeout (Target.id target)) g).1, Returned).

(** The function [hitTarget] declared in the module's scope. *)
Definition hitTarget (target : Target.t) (g : Game) : Game :=
  let g :=
    match findIndex (has_id (Target.id target)) (activeTargets g) with
    | Some index => g <| activeTargets := delete index (activeTargets g) |>
    | None => g
    end in
  let g := g <| targetsHit := targetsHit g + 1 |> in
  let g := g <| score :=
                  score g + 10 * config.scoreMultiplier (currentDifficulty g) |> in
  updateAccuracy g.

(** [handleCanvasClick], with [x] and [y] already relative to the canvas.
    Its body declares [const hitTarget = checkTargetHit(x, y)], which shadows
    the module's function [hitTarget] inside the handler; the call
    [hitTarget(hitTarget)] therefore applies the target object found, which
    is not callable, and throws a [TypeError] before anything is assigned. *)
Definition handleCanvasClick (x y : float) (g : Game) : Game * Completion :=
  if negb (isPlaying g) || isPaused g then (g, Returned)
  else
    match checkTargetHit x y g with
    | Some _ => (g, Threw TypeError)
    | None =>
        let g := g <| targetsMissed := targetsMissed g + 1 |> in
        (updateAccuracy g, Returned)
    end.

(** [handleCanvasMouseMove]: [target === hoverTarget] holds for the object
    at the place [checkTargetHit] returned, and for no other. *)
Definition handleCanvasMouseMove (x y : float) (g : Game) : Game :=
  if negb (isPlaying g) || isPaused g then g
  else
    let hoverTarget := fst <$> checkTargetHit x y g in
    g <| activeTargets :=
           imap (fun i target =>
                   target <| Target.isHover := bool_decide (hoverTarget = Some i) |>)
                (activeTargets g) |>.

(** ** Leaderboard *)

(** [Array.prototype.sort] with a comparison function: a stable sort, in
    which [compare a b > 0] puts [b] before [a].  It is written as insertion
    from the right, so that an element stays ahead of the later elements it
    does not compare greater than. *)
Fixpoint insertBy {A : Type} (compare : A -> A -> Z) (a : A) (l : list A)
  : list A :=
  match l with
  | [] => [a]
  | b :: l' => if 0 <? compare a b then b :: insertBy compare a l' else a :: l
  end.

Definition Array_sort {A : Type} (compare : A -> A -> Z) (l : list A) : list A :=
  foldr (insertBy compare) [] l.

(** The comparison of [saveToLeaderboard]: [(a, b) => b.score - a.score]. *)
Definition byScoreDesc (a b : Entry.t) : Z := Entry.score b - Entry.score a.

Definition loadLeaderboard (g : Game) : Game * Completion :=
  match storage g with
  | None | Some EmptyText => (g, Returned)
  | Some (JsonText v) => (g <| leaderboard := v |>, Returned)
  | Some (NotJson _) => (g, Threw SyntaxError)
  end.

(** [leaderboard.push] exists on arrays only. *)
Definition saveToLeaderboard (env : Env) (g : Game) : Game * Completion :=
  let entry := {|
    Entry.score := score g;
    Entry.accuracy := accuracy g;
    Entry.difficulty := currentDifficulty g;
    Entry.mode := currentMode g;
    Entry.date := now env
  |} in
  match leaderboard g with
  | Entries l =>
      let l := l ++ [entry] in
      let l := Array_sort byScoreDesc l in
      let l := take 10 l in
      (g <| leaderboard := Entries l |>
         <| storage := Some (JsonText (Entries l)) |>,
       Returned)
  | Other _ => (g, Threw TypeError)
  end.

(** [init]: [getDOMElements] defines [gameCanvas], [loadLeaderboard] may
    throw, [bindEvents] installs the listeners and the flag is set last: the
    listeners are installed exactly when [isInitialized] is true.  The page
    is taken to hold the element [aim-trainer-canvas], which
    [getElementById] then returns (the page itself is not among the
    sources); on a page without it [gameCanvas] would be [null] after
    [init], with the flag set all the same. *)
Definition init (g : Game) : Game * Completion :=
  if isInitialized g then (g, Returned)
  else
    let g := g <| gameCanvas := true |> in
    match loadLeaderboard g with
    | (g, Returned) => (g <| isInitialized := true |>, Returned)
    | (g, Threw err) => (g, Threw err)
    end.

(** ** The session *)

Definition startTimer (g : Game) : Game :=
  let '(g, handle) := setTimer ClockInterval g in
  g <| gameTimer := Some handle |>.

Definition startTargetSpawning (g : Game) : Game :=
  let '(g, handle) := setTimer SpawnInterval g in
  g <| targetSpawnTimer := Some handle |>.

Definition startGame (g : Game) : Game :=
  if isPlaying g then g
  else
    let g := resetGameState g in
    let g := g <| isPlaying := true |> <| isPaused := false |> in
    let g := startTimer g in
    startTargetSpawning g.

Definition pauseGame (g : Game) : Game :=
  let g := clearInterval (gameTimer g) g in
  clearInterval (targetSpawnTimer g) g.

Definition resumeGame (g : Game) : Game :=
  let g := startTimer g in
  startTargetSpawning g.

Definition togglePause (g : Game) : Game :=
  if negb (isPlaying g) then g
  else
    let g := g <| isPaused := negb (isPaused g) |> in
    if isPaused g then pauseGame g else resumeGame g.

Definition stopGame (g : Game) : Game :=
  if negb (isPlaying g) then g
  else
    let g := g <| isPlaying := false |> <| isPaused := false |> in
    let g := clearInterval (gameTimer g) g in
    let g := clearInterval (targetSpawnTimer g) g in
    g <| activeTargets := [] |>.

(** [resetGame] ends with the call [render()].  No [render] is in scope
    there (the only one is a local of [startRendering]) and the page defines
    no global of that name: the call throws a ReferenceError, after the game
    has been stopped and reset. *)
Definition resetGame (g : Game) : Game * Completion :=
  let g := stopGame g in
  let g := resetGameState g in
  (g, Threw ReferenceError).

Definition endGame (env : Env) (g : Game) : Game * Completion :=
  let g := stopGame g in
  let g := calculateFinalScore g in
  saveToLeaderboard env g.

(** The callback [startTimer] hands to [setInterval]. *)
Definition clockTick (env : Env) (g : Game) : Game * Completion :=
  match currentMode g with
  | timed =>
      let g := g <| timeLeft := timeLeft g - 1 |> in
      if timeLeft g <=? 0 then endGame env g else (g, Returned)
  | endless => (g <| timeLeft := timeLeft g + 1 |>, Returned)
  end.

(** ** Events *)

Inductive Key := Space | Escape | KeyR | OtherKey.

Definition handleKeydown (key : Key) (g : Game) : Game * Completion :=
  match key with
  | Space => (if isPlaying g then togglePause g else startGame g, Returned)
  | Escape =>
      (if isPlaying g && negb (isPaused g) then togglePause g else g, Returned)
  | KeyR => if negb (isPlaying g) then resetGame g else (g, Returned)
  | OtherKey => (g, Returned)
  end.

Definition handleVisibilityChange (hidden : bool) (g : Game) : Game :=
  if hidden && isPlaying g && negb (isPaused g) then togglePause g else g.

Definition handleDifficultyChange (value : Difficulty) (g : Game) : Game :=
  if negb (isPlaying g) then g <| currentDifficulty := value |> else g.

Definition handleModeChange (value : Mode) (g : Game) : Game :=
  if negb (isPlaying g) then g <| currentMode := value |> else g.

(** The functions of the returned object that change variables. *)
Inductive Export :=
| call_init
| call_startGame
| call_pauseGame
| call_resumeGame
| call_resetGame
| call_endGame
| call_togglePause.

(** Everything that can run code of the module: the listeners [bindEvents]
    installs, a timer of the browser's table coming due, and a call of an
    exported function. *)
Inductive Event :=
| StartButton
| PauseButton
| ResetButton
| DifficultySelect (value : Difficulty)
| ModeSelect (value : Mode)
| CanvasClick (x y : float)
| CanvasMouseMove (x y : float)
| KeyDown (key : Key)
| VisibilityChange (hidden : bool)
| TimerFires (handle : nat)
| Call (f : Export).

Definition fire (env : Env) (handle : nat) (g : Game) : Game * Completion :=
  match timers g !! handle with
  | Some ClockInterval => clockTick env g
  | Some SpawnInterval => spawnTarget env g
  | Some (ExpiryTimeout target_id) =>
      let g := g <| timers := delete handle (timers g) |> in
      (expireTarget target_id g, Returned)
  | None => (g, Returned)
  end.

Definition call (env : Env) (f : Export) (g : Game) : Game * Completion :=
  match f with
  | call_init => init g
  | call_startGame => (startGame g, Returned)
  | call_pauseGame => (pauseGame g, Returned)
  | call_resumeGame => (resumeGame g, Returned)
  | call_resetGame => resetGame g
  | call_endGame => endGame env g
  | call_togglePause => (togglePause g, Returned)
  end.

(** The listener, callback or function an event runs. *)
Definition handle (env : Env) (e : Event) (g : Game) : Game * Completion :=
  match e with
  | StartButton => (startGame g, Returned)
  | PauseButton => (togglePause g, Returned)
  | ResetButton => resetGame g
  | DifficultySelect value => (handleDifficultyChange value g, Returned)
  | ModeSelect value => (handleModeChange value g, Returned)
  | CanvasClick x y => handleCanvasClick x y g
  | CanvasMouseMove x y => (handleCanvasMouseMove x y g, Returned)
  | KeyDown key => handleKeydown key g
  | VisibilityChange hidden => (handleVisibilityChange hidden g, Returned)
  | TimerFires handle => fire env handle g
  | Call f => call env f g
  end.

(** The events of the DOM, which reach the module through its listeners. *)
Definition fromDom (e : Event) : bool :=
  match e with
  | TimerFires _ | Call _ => false
  | _ => true
  end.

(** One turn of the event loop: an event of the DOM runs nothing while the
    listeners are not installed. *)
Definition step (env : Env) (e : Event) (g : Game) : Game * Completion :=
  if fromDom e && negb (isInitialized g) then (g, Returned)
  else handle env e g.

(** A history: the event loop runs one callback after the other; an
    exception ends the callback it occurs in and is reported, the loop goes
    on. *)
Definition run (history : list (Env * Event)) (g : Game) : Game :=
  foldl (fun g '(env, e) => fst (step env e g)) g history.

(** The session states of the specification, read off the two flags.  The
    module keeps no trace of whether a session has ended: [Idle] and [Ended]
    are the same [Stopped]. *)
Inductive SessionState := Stopped | Running | Paused.

Definition sessionState (g : Game) : SessionState :=
  if isPlaying g then (if isPaused g then Paused else Running) else Stopped.


(** ** Notions used to state the properties *)

#[global] Instance SessionState_eq_dec : EqDecision SessionState.
Proof. solve_decision. Defined.

(** A repeating timer of the table is registered when the session is running
    and the timer is the one whose handle the module holds in [gameTimer]
    (the clock) or [targetSpawnTimer] (the spawner).  Only a registered
    interval can be cancelled: [clearInterval] is only ever given these two
    variables. *)
Definition registered (g : Game) (handle : nat) (t : Timer) : bool :=
  match t with
  | ClockInterval =>
      isPlaying g && negb (isPaused g) && bool_decide (gameTimer g = Some handle)
  | SpawnInterval =>
      isPlaying g && negb (isPaused g) &&
      bool_decide (targetSpawnTimer g = Some handle)
  | ExpiryTimeout _ => true
  end.

Definition timers_ok (g : Game) : Prop :=
  forall handle t, timers g !! handle = Some t -> registered g handle t = true.

Definition timers_okb (g : Game) : bool :=
  forallb (fun ht => registered g ht.1 ht.2) (map_to_list (timers g)).

(** The one exported function that adds repeating timers without cancelling
    or checking anything: called directly, it leaves the previous pair of
    intervals running with no variable holding their handles. *)
Definition leaks (e : Event) : bool :=
  match e with
  | Call call_resumeGame => true
  | _ => false
  end.

(** What the specification lists as the observable state of a session; the
    persisted leaderboard is the [localStorage] item. *)
Definition observables (g : Game) :=
  (sessionState g, score g, timeLeft g, targetsHit g, targetsMissed g,
   accuracy g, activeTargets g, storage g).

(** The entry [saveToLeaderboard] builds from the variables. *)
Definition entryOf (env : Env) (g : Game) : Entry.t := {|
  Entry.score := score g;
  Entry.accuracy := accuracy g;
  Entry.difficulty := currentDifficulty g;
  Entry.mode := currentMode g;
  Entry.date := now env
|}.

(** Recording the result of one session: the variables hold the result when
    [saveToLeaderboard] runs. *)
Definition recordResult (g : Game) (r : Entry.t) : Game :=
  let g := g <| score := Entry.score r |>
             <| accuracy := Entry.accuracy r |>
             <| currentDifficulty := Entry.difficulty r |>
             <| currentMode := Entry.mode r |> in
  (saveToLeaderboard (mkEnv (Entry.date r) 0 0 0) g).1.

Definition descending : Entry.t -> Entry.t -> Prop :=
  fun a b => Entry.score b <= Entry.score a.

Definition increasing : Entry.t -> Entry.t -> Prop :=
  fun a b => Entry.score a < Entry.score b.

Definition scored (s : Z) (e : Entry.t) : Prop := Entry.score e = s.

#[global] Instance scored_dec s e : Decision (scored s e).
Proof. unfold scored. apply _. Defined.

(** No repeating timer is in the table. *)
Definition only_expiries (g : Game) : Prop :=
  forall handle t, timers g !! handle = Some t ->
                   exists target_id, t = ExpiryTimeout target_id.

(** A game in which no callback of the timer table can do anything but
    leave the table: no session in progress, no active target, and no
    repeating timer left. *)
Definition quiet (g : Game) : Prop :=
  isPlaying g = false /\ activeTargets g = [] /\ only_expiries g.

(** The game with the timer table put aside: two games that agree on it
    agree on every variable of the module and on what is persisted. *)
Definition variables (g : Game) : Game := g <| timers := ∅ |>.

(** Timers coming due, one after the other. *)
Definition firing (due : list (Env * nat)) : list (Env * Event) :=
  (fun d => (d.1, TimerFires d.2)) <$> due.

(** The ledger of the specification's invariant, kept beside the game: how
    many targets have left the active set by a hit, how many by expiry, and
    how many clicks resolved to no target, since the counters were last
    zeroed. *)
Record Ledger := mkLedger {
  removedByHit : Z;
  removedByExpiry : Z;
  emptyClicks : Z
}.

Definition opened : Ledger := mkLedger 0 0 0.

(** The listeners and functions that run [resetGameState], which zeroes
    the counters. *)
Definition restarts (e : Event) (g : Game) : bool :=
  match e with
  | StartButton | Call call_startGame | KeyDown Space | KeyDown KeyR =>
      negb (isPlaying g)
  | ResetButton | Call call_resetGame => true
  | _ => false
  end.

(** By how many targets the active set shrank over a step. *)
Definition departed (g g' : Game) : Z :=
  Z.of_nat (length (activeTargets g)) - Z.of_nat (length (activeTargets g')).

(** The ledger after a step from [g].  An event that runs nothing leaves
    it alone.  A click that a running session resolves to a target books
    the targets the step removed as hits; one that it resolves to no target
    is an empty click; an expiry timeout coming due books the targets the
    step removed as expiries. *)
Definition book (env : Env) (e : Event) (g : Game) (b : Ledger) : Ledger :=
  let g' := (step env e g).1 in
  if fromDom e && negb (isInitialized g) then b
  else if restarts e g then opened
  else
    match e with
    | CanvasClick x y =>
        if isPlaying g && negb (isPaused g) then
          match checkTargetHit x y g with
          | Some _ =>
              mkLedger (removedByHit b + departed g g') (removedByExpiry b)
                       (emptyClicks b)
          | None =>
              mkLedger (removedByHit b) (removedByExpiry b) (emptyClicks b + 1)
          end
        else b
    | TimerFires handle =>
        match timers g !! handle with
        | Some (ExpiryTimeout _) =>
            mkLedger (removedByHit b) (removedByExpiry b + departed g g')
                     (emptyClicks b)
        | _ => b
        end
    | _ => b
    end.

Definition audit (history : list (Env * Event)) (g : Game) (b : Ledger)
  : Game * Ledger :=
  foldl (fun gb '(env, e) => ((step env e gb.1).1, book env e gb.1 gb.2))
        (g, b) history.

(** A step that leaves the counters and the percentage alone. *)
Definition same_counters (g g' : Game) : Prop :=
  targetsHit g' = targetsHit g /\ targetsMissed g' = targetsMissed g /\
  accuracy g' = accuracy g.

Definition balanced (gb : Game * Ledger) : Prop :=
  targetsHit gb.1 = removedByHit gb.2 /\
  targetsMissed gb.1 = removedByExpiry gb.2 + emptyClicks gb.2.

(** The percentage [updateAccuracy] assigns, as a function of the two
    counters. *)
Definition percentage (hit missed : Z) : Z :=
  let total := hit + missed in
  if 0 <? total
  then Number.Math_round (Number.of_Z hit / Number.of_Z total * 100)%float
  else 100.

(** The rounding the specification writes, in exact arithmetic: the integer
    nearest to [100 * hit / total], a tie going up, that is
    [floor (100 * hit / total + 1/2)]. *)
Definition roundedPercentage (hit missed : Z) : Z :=
  (200 * hit + (hit + missed)) / (2 * (hit + missed)).

(** [100 * hit / total] lies exactly halfway between two integers. *)
Definition halfway (hit missed : Z) : bool :=
  (200 * hit) mod (2 * (hit + missed)) =? hit + missed.

(** [percentage] is in range, and is the exact rounding or, on a tie, the
    integer just below it. *)
Definition nearest (hit missed : Z) : bool :=
  let p := percentage hit missed in
  (0 <=? p) && (p <=? 100) &&
  ((p =? roundedPercentage hit missed) ||
   (halfway hit missed && (p =? roundedPercentage hit missed - 1))).

(** [nearest] for all counters with a total from 1 to [n]. *)
Definition nearest_upto (n : Z) : bool :=
  forallb (fun total =>
             forallb (fun hit => nearest hit (total - hit)) (seqZ 0 (total + 1)))
          (seqZ 1 n).

Definition accurate (g : Game) : Prop :=
  accuracy g = percentage (targetsHit g) (targetsMissed g).

(** The counters set by hand, to read [updateAccuracy] as a function. *)
Definition withCounters (hit missed : Z) (g : Game) : Game :=
  g <| targetsHit := hit |> <| targetsMissed := missed |>.

(** ** Scenarios

    A page whose canvas is 200 by 200 with nothing persisted, initialised,
    with difficulty [normal] and mode [timed] as loaded.  After Start the
    clock has handle 1 and the spawner handle 2.  With the draws 0.5 and 0.5
    a target of radius 50 is centred at (100, 100). *)

Definition page : Game := (init (loaded 200 200 None)).1.

Definition at_centre (ms : Z) : Env := mkEnv ms 0.25 0.5 0.5.

Definition t0 : Z := 1700000000000.

(** The target a spawn at time [ms] with the draws of [at_centre] makes. *)
Definition centred (ms : Z) : Target.t := {|
  Target.id := (Number.of_Z ms + 0.25)%float;
  Target.x := 100;
  Target.y := 100;
  Target.radius := 50;
  Target.spawnTime := ms;
  Target.lifetime := 2000;
  Target.isHover := false;
  Target.opacity := 1
|}.

(** Start, then one spawn. *)
Definition one_target : Game :=
  run [(at_centre t0, StartButton); (at_centre (t0 + 1000), TimerFires 2)] page.

(** Start, then two spawns on the same spot, one second apart. *)
Definition two_targets : Game :=
  run [(at_centre t0, StartButton);
       (at_centre (t0 + 1000), TimerFires 2);
       (at_centre (t0 + 2000), TimerFires 2)] page.

(** Start, one spawn, then Pause. *)
Definition paused_with_target : Game :=
  run [(at_centre (t0 + 1500), PauseButton)] one_target.

(** A session in which [resumeGame] was called directly while running, then
    paused: the first pair of intervals (handles 1 and 2) is still in the
    timer table. *)
Definition paused_with_stale_spawner : Game :=
  run [(at_centre t0, StartButton);
       (at_centre t0, Call call_resumeGame);
       (at_centre t0, PauseButton)] page.

(** Eleven results with scores 10, 20, ..., 110, in the order recorded. *)
Definition eleven_results : list Entry.t :=
  (fun k => Entry.mk (10 * k) 100 normal timed (t0 + k)) <$> seqZ 1 11.

(** Start, then 29 ticks of the clock: one second left. *)
Definition last_second : Game :=
  run ((at_centre t0, StartButton) ::
       replicate 29 (at_centre t0, TimerFires 1)) page.

(** ** The page around the module *)

(** [loadSectionModule] of [main.js] (the file [unnamed/part_001]), which
    runs when a section of the page comes into view: for the section
    ['game'] it calls [Game.init()] unless [Game.isInitialized()], and logs
    what [init] throws.  The other sections do not touch the game. *)
Definition loadSectionModule (sectionId : string) (g : Game) : Game :=
  if String.eqb sectionId "game"
  then if negb (isInitialized g) then (init g).1 else g
  else g.

(** ** Notions used to state further properties *)

(** What holds of the flags, the targets and the running score in every
    state a history reaches. *)
Definition well_flagged (g : Game) : Prop :=
  (isPaused g = true -> isPlaying g = true) /\
  (isPlaying g = false -> activeTargets g = []) /\
  (isPlaying g = true -> score g = 0) /\
  (gameCanvas g = false -> activeTargets g = []).

(** While a session is in progress there is time left on a timed clock, and
    an endless clock has only gone up. *)
Definition in_time (g : Game) : Prop :=
  isPlaying g = true ->
  match currentMode g with
  | timed => 1 <= timeLeft g <= 30
  | endless => 999999 <= timeLeft g
  end.

(** A target as [spawnTarget] builds it under the current difficulty. *)
Definition sized (g : Game) (t : Target.t) : Prop :=
  Target.radius t = Number.of_Z (config.targetSize (currentDifficulty g)) /\
  Target.lifetime t = config.targetLifetime (currentDifficulty g) /\
  Target.opacity t = 1%float.

Definition uniform (g : Game) : Prop := Forall (sized g) (activeTargets g).

(** Every handle in use is below the next one the browser gives out. *)
Definition fresh (g : Game) : Prop :=
  forall handle t, timers g !! handle = Some t -> (handle < nextHandle g)%nat.

(** The two intervals of a running session are in the table under the
    handles the module holds. *)
Definition ticking (g : Game) : Prop :=
  exists clock spawner,
    gameTimer g = Some clock /\ timers g !! clock = Some ClockInterval /\
    targetSpawnTimer g = Some spawner /\
    timers g !! spawner = Some SpawnInterval.

(** The handles the module holds were given out by the browser, and are not
    those of expiry timeouts. *)
Definition held (g : Game) : Prop :=
  forall handle,
    gameTimer g = Some handle \/ targetSpawnTimer g = Some handle ->
    (handle < nextHandle g)%nat /\
    forall target_id, timers g !! handle <> Some (ExpiryTimeout target_id).

(** Every expiry timeout pending in [g] is still pending in [g']. *)
Definition still_pending (g g' : Game) : Prop :=
  forall handle target_id,
    timers g !! handle = Some (ExpiryTimeout target_id) ->
    timers g' !! handle = Some (ExpiryTimeout target_id).

(** The exported functions that start or cancel the intervals without
    looking at the flags; the listeners reach them through [togglePause]
    only. *)
Definition bare (e : Event) : bool :=
  match e with
  | Call call_pauseGame | Call call_resumeGame => true
  | _ => false
  end.

(** The exported functions that no listener and no timer of the module
    calls on its own: a history without them is one in which the page is
    used through its buttons, its keys, its canvas and its timers. *)
Definition console (e : Event) : bool :=
  match e with
  | Call call_pauseGame | Call call_resumeGame | Call call_endGame => true
  | _ => false
  end.

(** The score of a page used in that way: 0 during a session, and at most
    100 * 10 * 5 once it has ended. *)
Definition modest (g : Game) : Prop := 0 <= score g <= 5000.

(** What [localStorage] can hold when only this module writes the item:
    nothing, or an array [saveToLeaderboard] has stored, with scores that
    are safe integers (the doubles of the source and the integers here then
    compare, sort and print alike). *)
Definition tidy (l : list Entry.t) : Prop :=
  (length l <= 10)%nat /\ StronglySorted descending l /\
  Forall (fun e => Number.isSafeInteger (Entry.score e)) l.

Definition own (item : StorageItem) : Prop :=
  item = None \/ exists l, item = Some (JsonText (Entries l)) /\ tidy l.

(** The leaderboard as [saveToLeaderboard] leaves it, and what is persisted:
    the same array, or still the [item] the page was loaded with while
    nothing has been recorded; [init] then has read the item if there was
    one. *)
Definition kept (item : StorageItem) (g : Game) : Prop :=
  exists l,
    leaderboard g = Entries l /\ tidy l /\
    (storage g = Some (JsonText (Entries l)) \/
     storage g = item /\ l = [] /\ (isInitialized g = true -> item = None)).

(** A running session whose clock is the interval under [clock]. *)
Definition on_the_clock (clock : nat) (g : Game) : Prop :=
  isPlaying g = true /\ isPaused g = false /\ timers_ok g /\ fresh g /\
  timers g !! clock = Some ClockInterval.

(** What happens with nobody at the controls: the pointer moves and clicks
    on the canvas, and timers come due. *)
Definition unattended (e : Event) : bool :=
  match e with
  | CanvasClick _ _ | CanvasMouseMove _ _ | TimerFires _ => true
  | _ => false
  end.

Definition is_tick (clock : nat) (e : Event) : bool :=
  match e with
  | TimerFires handle => bool_decide (handle = clock)
  | _ => false
  end.

(** How many times the interval under [clock] comes due in a history. *)
Fixpoint ticks (clock : nat) (history : list (Env * Event)) : Z :=
  match history with
  | [] => 0
  | (_, e) :: history => (if is_tick clock e then 1 else 0) + ticks clock history
  end.

(** ** Further scenarios *)

(** A visit: [init], Start, one spawn, Pause, and Space to resume. *)
Definition a_session : list (Env * Event) :=
  [(at_centre t0, Call call_init); (at_centre t0, StartButton);
   (at_centre (t0 + 1000), TimerFires 2); (at_centre (t0 + 1200), PauseButton);
   (at_centre (t0 + 5000), KeyDown Space)].

(** A pointer that moves and clicks beside the targets while the spawner
    fires once and the clock 29 times. *)
Definition idle_seconds : list (Env * Event) :=
  [(at_centre (t0 + 500), CanvasMouseMove 10 10);
   (at_centre (t0 + 600), CanvasClick 10 10);
   (at_centre (t0 + 1000), TimerFires 2)] ++
  replicate 29 (at_centre (t0 + 1000), TimerFires 1).

(** One result stored by an earlier visit. *)
Definition stored_result : StorageItem :=
  Some (JsonText (Entries [Entry.mk 2000 100 normal timed t0])).

(** A visit that plays a timed session to its end, with one click beside
    the targets. *)
Definition played_visit : list (Env * Event) :=
  [(at_centre (t0 + 100000), Call call_init);
   (at_centre (t0 + 101000), StartButton);
   (at_centre (t0 + 102000), CanvasClick 10 10)] ++
  replicate 30 (at_centre (t0 + 103000), TimerFires 1).

(** [init] alone, and [init] followed by the choice of the endless mode. *)
Definition to_page : list (Env * Event) := [(at_centre t0, Call call_init)].

Definition to_endless_page : list (Env * Event) :=
  [(at_centre t0, Call call_init); (at_centre t0, ModeSelect endless)].

(** [init], Start, and the first spawn: the state [one_target], from the
    loaded page. *)
Definition first_target : list (Env * Event) :=
  [(at_centre t0, Call call_init); (at_centre t0, StartButton);
   (at_centre (t0 + 1000), TimerFires 2)].

(** [init], Start, and 29 ticks of the clock: the state [last_second], from
    the loaded page. *)
Definition to_last_second : list (Env * Event) :=
  (at_centre t0, Call call_init) :: (at_centre t0, StartButton) ::
  replicate 29 (at_centre t0, TimerFires 1).

(** A visit in which [resumeGame] is called directly while the session
    runs: a second clock (handle 3) replaces the first (handle 1) in
    [gameTimer], and counts the 30 seconds down. *)
Definition leaked_clock : list (Env * Event) :=
  [(at_centre t0, Call call_init); (at_centre t0, StartButton);
   (at_centre t0, Call call_resumeGame)] ++
  replicate 30 (at_centre (t0 + 1000), TimerFires 3).

(** * Properties *)

(** ** Searching the array *)

Lemma findIndex_Some {A : Type} (p : A -> bool) (l : list A) (i : nat) :
  findIndex p l = Some i ->
  exists a, l !! i = Some a /\ p a = true /\
            forall j b, (j < i)%nat -> l !! j = Some b -> p b = false.
Proof.
  revert i. induction l as [|a l IH]; intros i H; simpl in H; [discriminate|].
  destruct (p a) eqn:Hp.
  - injection H as <-. exists a. repeat split; auto. intros j b Hj. lia.
  - destruct (findIndex p l) as [k|] eqn:Hk; simpl in H; [|discriminate].
    injection H as <-. destruct (IH k eq_refl) as (b & Hb & Hpb & Hmin).
    exists b. repeat split; auto.
    intros [|j] c Hj Hc; simpl in Hc.
    + congruence.
    + apply (Hmin j); [lia|exact Hc].
Qed.

Lemma findIndex_None {A : Type} (p : A -> bool) (l : list A) :
  findIndex p l = None <-> forall a, a ∈ l -> p a = false.
Proof.
  induction l as [|a l IH]; simpl.
  - split; [intros _ b Hb; inversion Hb|reflexivity].
  - destruct (p a) eqn:Hp.
    + split; [discriminate|]. intros H. rewrite (H a) in Hp; [discriminate|left].
    + destruct (findIndex p l) as [k|]; simpl.
      * split; [discriminate|]. intros H.
        assert (Some k = None) as Hk; [|discriminate].
        apply IH. intros b Hb. apply H. now right.
      * split; [|reflexivity]. intros _ b Hb.
        apply elem_of_cons in Hb as [->|Hb]; [exact Hp|].
        now apply IH.
Qed.

Lemma findIndex_first {A : Type} (p : A -> bool) (l : list A) i a :
  l !! i = Some a -> p a = true ->
  (forall j b, (j < i)%nat -> l !! j = Some b -> p b = false) ->
  findIndex p l = Some i.
Proof.
  revert i. induction l as [|b l IH]; intros [|i] Ha Hp Hmin;
    try discriminate; simpl in *.
  - injection Ha as ->. now rewrite Hp.
  - rewrite (Hmin 0%nat b); [|lia|reflexivity].
    rewrite (IH i Ha Hp); [reflexivity|].
    intros j c Hj Hc. apply (Hmin (S j)); [lia|exact Hc].
Qed.

Lemma scanDown_Some targets x y n i t :
  scanDown targets x y n = Some (i, t) ->
  (i < n)%nat /\ targets !! i = Some t /\ covers x y t = true /\
  forall j u, (i < j < n)%nat -> targets !! j = Some u -> covers x y u = false.
Proof.
  induction n as [|n IH]; simpl; [discriminate|].
  destruct (targets !! n) as [u|] eqn:Hn.
  - destruct (covers x y u) eqn:Hc.
    + intros [= <- <-]. repeat split; auto. intros j v Hj. lia.
    + intros H. destruct (IH H) as (Hi & Ht & Hct & Hlater).
      repeat split; auto.
      intros j v Hj Hv. destruct (decide (j = n)) as [->|Hne].
      * congruence.
      * apply (Hlater j); [lia|exact Hv].
  - intros H. destruct (IH H) as (Hi & Ht & Hct & Hlater).
    repeat split; auto.
    intros j v Hj Hv. destruct (decide (j = n)) as [->|Hne].
    + congruence.
    + apply (Hlater j); [lia|exact Hv].
Qed.

Lemma scanDown_None targets x y n :
  scanDown targets x y n = None ->
  forall j u, (j < n)%nat -> targets !! j = Some u -> covers x y u = false.
Proof.
  induction n as [|n IH]; simpl; [intros _ j u Hj; lia|].
  destruct (targets !! n) as [u|] eqn:Hn.
  - destruct (covers x y u) eqn:Hc; [discriminate|].
    intros H j v Hj Hv. destruct (decide (j = n)) as [->|Hne].
    + congruence.
    + apply (IH H j); [lia|exact Hv].
  - intros H j v Hj Hv. destruct (decide (j = n)) as [->|Hne].
    + congruence.
    + apply (IH H j); [lia|exact Hv].
Qed.

(** [checkTargetHit] finds a target exactly when one covers the point, and
    then it is the covering target that was pushed last. *)
Lemma checkTargetHit_spec x y g :
  match checkTargetHit x y g with
  | Some (i, t) =>
      activeTargets g !! i = Some t /\ covers x y t = true /\
      forall j u, (i < j)%nat -> activeTargets g !! j = Some u ->
                  covers x y u = false
  | None => forall u, u ∈ activeTargets g -> covers x y u = false
  end.
Proof.
  unfold checkTargetHit.
  destruct (scanDown (activeTargets g) x y (length (activeTargets g)))
    as [[i t]|] eqn:H.
  - apply scanDown_Some in H as (Hi & Ht & Hc & Hlater).
    repeat split; auto.
    intros j u Hj Hu. apply (Hlater j); [|exact Hu].
    split; [exact Hj|]. now apply lookup_lt_Some in Hu.
  - intros u Hu. apply list_elem_of_lookup in Hu as [j Hj].
    apply (scanDown_None _ _ _ _ H j); [|exact Hj].
    now apply lookup_lt_Some in Hj.
Qed.

Lemma checkTargetHit_finds x y g u :
  u ∈ activeTargets g -> covers x y u = true ->
  exists i t, checkTargetHit x y g = Some (i, t).
Proof.
  intros Hu Hc. pose proof (checkTargetHit_spec x y g) as H.
  destruct (checkTargetHit x y g) as [[i t]|]; [eauto|].
  rewrite (H u Hu) in Hc. discriminate.
Qed.

(** ** Registered timers *)

Lemma timers_okb_sound g : timers_okb g = true -> timers_ok g.
Proof.
  unfold timers_okb, timers_ok. intros H handle t Hl.
  rewrite forallb_forall in H.
  apply (H (handle, t)). apply list_elem_of_In.
  now apply elem_of_map_to_list.
Qed.

Ltac lookups :=
  repeat match goal with
  | H : <[_:=_]> _ !! _ = Some _ |- _ =>
      apply lookup_insert_Some in H as [[<- <-]|[? H]]
  | H : delete _ _ !! _ = Some _ |- _ =>
      apply lookup_delete_Some in H as [? H]
  end.

Ltac flags :=
  repeat match goal with
  | H : _ && _ = true |- _ => apply andb_true_iff in H as [? ?]
  | H : negb _ = true |- _ => apply negb_true_iff in H
  | H : bool_decide _ = true |- _ => apply bool_decide_eq_true in H
  end.

Lemma registered_running g handle t :
  registered g handle t = true ->
  match t with
  | ClockInterval =>
      isPlaying g = true /\ isPaused g = false /\ gameTimer g = Some handle
  | SpawnInterval =>
      isPlaying g = true /\ isPaused g = false /\
      targetSpawnTimer g = Some handle
  | ExpiryTimeout _ => True
  end.
Proof. destruct t; simpl; intros H; flags; auto. Qed.

(** An entry that was in the table of a game that satisfies [timers_ok] and
    is not running cannot be a repeating timer. *)
Ltac stale H Hl :=
  apply H in Hl; apply registered_running in Hl;
  match goal with t : Timer |- _ => destruct t end;
  try reflexivity; destruct Hl as (? & ? & ?); congruence.

Lemma timers_ok_frame g g' :
  isPlaying g' = isPlaying g -> isPaused g' = isPaused g ->
  gameTimer g' = gameTimer g -> targetSpawnTimer g' = targetSpawnTimer g ->
  timers g' = timers g ->
  timers_ok g -> timers_ok g'.
Proof.
  unfold timers_ok, registered. intros -> -> -> -> -> H. exact H.
Qed.

Lemma startGame_timers_ok g : timers_ok g -> timers_ok (startGame g).
Proof.
  unfold timers_ok, startGame. intros H h t.
  destruct (isPlaying g) eqn:Hp; [apply H|].
  unfold startTargetSpawning, startTimer, setTimer, resetGameState, updateAccuracy.
  simpl. intros Hl. lookups.
  - simpl. now rewrite bool_decide_eq_true.
  - simpl. now rewrite bool_decide_eq_true.
  - stale H Hl.
Qed.

Lemma stopGame_timers_ok g : timers_ok g -> timers_ok (stopGame g).
Proof.
  unfold timers_ok, stopGame. intros H h t.
  destruct (isPlaying g) eqn:Hp; [|apply H].
  unfold clearInterval. simpl.
  destruct (gameTimer g) eqn:Hg; simpl; destruct (targetSpawnTimer g) eqn:Hs;
    simpl; intros Hl; lookups;
    stale H Hl.
Qed.

Lemma togglePause_timers_ok g : timers_ok g -> timers_ok (togglePause g).
Proof.
  unfold timers_ok, togglePause. intros H h t.
  destruct (isPlaying g) eqn:Hp; [|apply H]. simpl.
  destruct (isPaused g) eqn:Hq; simpl.
  - unfold resumeGame, startTargetSpawning, startTimer, setTimer. simpl.
    intros Hl. lookups.
    + simpl. rewrite Hp. simpl. now rewrite bool_decide_eq_true.
    + simpl. rewrite Hp. simpl. now rewrite bool_decide_eq_true.
    + stale H Hl.
  - unfold pauseGame, clearInterval. simpl.
    destruct (gameTimer g) eqn:Hg; simpl; destruct (targetSpawnTimer g) eqn:Hs;
      simpl; intros Hl; lookups;
      stale H Hl.
Qed.

Ltac framed g :=
  apply (timers_ok_frame g); [reflexivity..|assumption].

Lemma updateAccuracy_timers_ok g : timers_ok g -> timers_ok (updateAccuracy g).
Proof. intros H. unfold updateAccuracy. framed g. Qed.

Lemma resetGameState_timers_ok g : timers_ok g -> timers_ok (resetGameState g).
Proof. intros H. unfold resetGameState, updateAccuracy. framed g. Qed.

Lemma resetGame_timers_ok g : timers_ok g -> timers_ok (resetGame g).1.
Proof.
  intros H. apply resetGameState_timers_ok, stopGame_timers_ok, H.
Qed.

Lemma saveToLeaderboard_timers_ok env g :
  timers_ok g -> timers_ok (saveToLeaderboard env g).1.
Proof.
  intros H. unfold saveToLeaderboard.
  destruct (leaderboard g); simpl; [framed g|exact H].
Qed.

Lemma endGame_timers_ok env g : timers_ok g -> timers_ok (endGame env g).1.
Proof.
  intros H. unfold endGame. apply saveToLeaderboard_timers_ok.
  apply (timers_ok_frame (stopGame g)); try reflexivity.
  now apply stopGame_timers_ok.
Qed.

Lemma clockTick_timers_ok env g : timers_ok g -> timers_ok (clockTick env g).1.
Proof.
  intros H. unfold clockTick. destruct (currentMode g).
  - simpl. destruct (timeLeft g - 1 <=? 0).
    + apply endGame_timers_ok. framed g.
    + simpl. framed g.
  - simpl. framed g.
Qed.

Lemma spawnTarget_timers_ok env g :
  timers_ok g -> timers_ok (spawnTarget env g).1.
Proof.
  unfold timers_ok, spawnTarget. intros H h t.
  destruct (negb (isPlaying g) || isPaused g); [apply H|].
  destruct (negb (gameCanvas g)); [apply H|].
  simpl. intros Hl. lookups; [reflexivity|].
  apply H in Hl. exact Hl.
Qed.

Lemma expireTarget_timers_ok target_id g :
  timers_ok g -> timers_ok (expireTarget target_id g).
Proof.
  intros H. unfold expireTarget, updateAccuracy.
  destruct (findIndex _ _); [framed g|exact H].
Qed.

Lemma fire_timers_ok env handle g : timers_ok g -> timers_ok (fire env handle g).1.
Proof.
  intros H. unfold fire. destruct (timers g !! handle) as [[| |target_id]|] eqn:Hl.
  - now apply clockTick_timers_ok.
  - now apply spawnTarget_timers_ok.
  - simpl. apply expireTarget_timers_ok.
    intros h t Ht. simpl in Ht. lookups. apply H in Ht. exact Ht.
  - exact H.
Qed.

Lemma pauseGame_timers_ok g : timers_ok g -> timers_ok (pauseGame g).
Proof.
  unfold timers_ok, pauseGame, clearInterval. intros H h t.
  destruct (gameTimer g) eqn:Hg; simpl; destruct (targetSpawnTimer g) eqn:Hs;
    simpl; intros Hl; lookups; apply H in Hl; exact Hl.
Qed.

Lemma init_timers_ok g : timers_ok g -> timers_ok (init g).1.
Proof.
  intros H. unfold init, loadLeaderboard.
  destruct (isInitialized g); [exact H|]. simpl.
  destruct (storage g) as [[|v|s]|]; simpl; framed g.
Qed.

Lemma handle_timers_ok env e g :
  leaks e = false -> timers_ok g -> timers_ok (handle env e g).1.
Proof.
  intros He H. destruct e as [| | |d|m|x y|x y|key|hidden|h|f]; simpl.
  - now apply startGame_timers_ok.
  - now apply togglePause_timers_ok.
  - now apply resetGame_timers_ok.
  - unfold handleDifficultyChange. destruct (negb (isPlaying g)); [framed g|exact H].
  - unfold handleModeChange. destruct (negb (isPlaying g)); [framed g|exact H].
  - unfold handleCanvasClick, updateAccuracy.
    destruct (negb (isPlaying g) || isPaused g); [exact H|].
    destruct (checkTargetHit x y g); simpl; [exact H|framed g].
  - unfold handleCanvasMouseMove.
    destruct (negb (isPlaying g) || isPaused g); [exact H|framed g].
  - unfold handleKeydown. destruct key; simpl.
    + destruct (isPlaying g);
        [now apply togglePause_timers_ok|now apply startGame_timers_ok].
    + destruct (isPlaying g && negb (isPaused g));
        [now apply togglePause_timers_ok|exact H].
    + destruct (negb (isPlaying g)); [now apply resetGame_timers_ok|exact H].
    + exact H.
  - unfold handleVisibilityChange.
    destruct (hidden && isPlaying g && negb (isPaused g));
      [now apply togglePause_timers_ok|exact H].
  - now apply fire_timers_ok.
  - destruct f; simpl; try discriminate.
    + now apply init_timers_ok.
    + now apply startGame_timers_ok.
    + now apply pauseGame_timers_ok.
    + now apply resetGame_timers_ok.
    + now apply endGame_timers_ok.
    + now apply togglePause_timers_ok.
Qed.

(** A step does nothing, or it runs the listener. *)
Lemma step_handle env e g :
  step env e g = (g, Returned) \/ step env e g = handle env e g.
Proof. unfold step. destruct (fromDom e && negb (isInitialized g)); auto. Qed.

Lemma step_TimerFires env h g : step env (TimerFires h) g = fire env h g.
Proof. reflexivity. Qed.

Lemma step_timers_ok env e g :
  leaks e = false -> timers_ok g -> timers_ok (step env e g).1.
Proof.
  intros He H. destruct (step_handle env e g) as [-> | ->]; [exact H|].
  now apply handle_timers_ok.
Qed.

Lemma loaded_timers_ok width height item :
  timers_ok (loaded width height item).
Proof. intros h t Hl. simpl in Hl. rewrite lookup_empty in Hl. discriminate. Qed.

Lemma run_timers_ok history g :
  forallb (fun ee => negb (leaks ee.2)) history = true ->
  timers_ok g -> timers_ok (run history g).
Proof.
  revert g. induction history as [|[env e] history IH]; intros g Hh H; [exact H|].
  simpl in Hh. apply andb_true_iff in Hh as [He Hh].
  unfold run. simpl. apply IH; [exact Hh|].
  apply step_timers_ok; [|exact H]. now apply negb_true_iff in He.
Qed.

(** ** Clicks *)

Lemma handleCanvasClick_on_target x y g i t :
  isPlaying g = true -> isPaused g = false ->
  checkTargetHit x y g = Some (i, t) ->
  handleCanvasClick x y g = (g, Threw TypeError).
Proof.
  intros Hp Hq Hc. unfold handleCanvasClick. now rewrite Hp, Hq, Hc.
Qed.

Lemma handleCanvasClick_off_target x y g :
  isPlaying g = true -> isPaused g = false ->
  checkTargetHit x y g = None ->
  handleCanvasClick x y g =
    (updateAccuracy (g <| targetsMissed := targetsMissed g + 1 |>), Returned).
Proof.
  intros Hp Hq Hc. unfold handleCanvasClick. now rewrite Hp, Hq, Hc.
Qed.

(** What the module's function [hitTarget] does with a target that is
    active and is the first to carry its identifier: it removes that target,
    adds one to [targetsHit] and ten times the multiplier to [score], and
    recomputes the percentage. *)
Lemma hitTarget_resolves g i t :
  activeTargets g !! i = Some t ->
  has_id (Target.id t) t = true ->
  (forall j u, (j < i)%nat -> activeTargets g !! j = Some u ->
               has_id (Target.id t) u = false) ->
  let g' := hitTarget t g in
  activeTargets g' = delete i (activeTargets g) /\
  targetsHit g' = targetsHit g + 1 /\
  score g' = score g + 10 * config.scoreMultiplier (currentDifficulty g) /\
  accuracy g' = percentage (targetsHit g + 1) (targetsMissed g).
Proof.
  intros Ht Hid Hfirst. unfold hitTarget.
  rewrite (findIndex_first _ _ i t Ht Hid Hfirst). simpl.
  repeat split.
Qed.

(** C1 (the code at the scenario of the claim).  Difficulty normal, one
    target centred at (100, 100), a click at (100, 100) before the target
    expires: [checkTargetHit] finds the target, and the handler then throws
    a TypeError instead of resolving the hit, so the target stays active,
    [targetsHit] stays 0 and [score] stays 0.  The module's function
    [hitTarget], which the handler cannot reach, would have produced what the
    claim states: no target left, [targetsHit] 1, [score] 20, [accuracy]
    100. *)
Theorem click_on_target_throws :
  let click := step (at_centre (t0 + 1500)) (CanvasClick 100 100) one_target in
  let hit := hitTarget (centred (t0 + 1000)) one_target in
  currentDifficulty one_target = normal /\
  activeTargets one_target = [centred (t0 + 1000)] /\
  checkTargetHit 100 100 one_target = Some (0%nat, centred (t0 + 1000)) /\
  (activeTargets hit = [] /\ targetsHit hit = 1 /\ score hit = 20 /\
   accuracy hit = 100) /\
  click.2 = Threw TypeError /\
  click.1 = one_target /\
  targetsHit click.1 = 0 /\ score click.1 = 0 /\
  activeTargets click.1 = [centred (t0 + 1000)].
Proof. vm_compute. repeat split; reflexivity. Qed.

(** [spawnTarget] pushes: a running session gets the new target at the end
    of the array, so a later spawn has a larger index. *)
Lemma spawnTarget_pushes env g :
  isPlaying g = true -> isPaused g = false -> gameCanvas g = true ->
  exists target,
    activeTargets (spawnTarget env g).1 = activeTargets g ++ [target] /\
    Target.spawnTime target = now env.
Proof.
  intros Hp Hq Hc. unfold spawnTarget. rewrite Hp, Hq, Hc. simpl.
  eexists. split; reflexivity.
Qed.

(** The hover handler marks the target [checkTargetHit] selects, and no
    other; it leaves the counters alone. *)
Lemma handleCanvasMouseMove_marks x y g j u :
  isPlaying g = true -> isPaused g = false ->
  activeTargets (handleCanvasMouseMove x y g) !! j = Some u ->
  Target.isHover u = bool_decide (fst <$> checkTargetHit x y g = Some j).
Proof.
  intros Hp Hq. unfold handleCanvasMouseMove. rewrite Hp, Hq. simpl.
  rewrite list_lookup_imap.
  destruct (activeTargets g !! j) as [v|]; simpl; [|discriminate].
  intros [= <-]. reflexivity.
Qed.

(** C8 (the code at the scenario of the claim).  Two targets spawned one
    after the other on the same spot, both covering (100, 100):
    [checkTargetHit] selects the one spawned last (index 1), and the hover
    handler marks that one only; but the click handler throws a TypeError on
    the selected target, so the single click removes no target and
    [targetsHit] stays 0. *)
Theorem click_on_overlap_throws :
  let click := step (at_centre (t0 + 2500)) (CanvasClick 100 100) two_targets in
  let hover := handleCanvasMouseMove 100 100 two_targets in
  let older := centred (t0 + 1000) in
  let newer := centred (t0 + 2000) in
  activeTargets two_targets = [older; newer] /\
  covers 100 100 older = true /\ covers 100 100 newer = true /\
  checkTargetHit 100 100 two_targets = Some (1%nat, newer) /\
  Target.isHover <$> activeTargets hover = [false; true] /\
  click.2 = Threw TypeError /\
  activeTargets click.1 = [older; newer] /\
  targetsHit click.1 = 0.
Proof. vm_compute. repeat split; reflexivity. Qed.

(** ** The spawner's guard *)

(** C10.  When [isPlaying] is false or [isPaused] is true, [spawnTarget]
    returns the game as it is: no target is added and no expiry is
    scheduled.  So a spawn interval that is still in the timer table while
    the session is stopped or paused changes nothing when it fires. *)
Theorem spawnTarget_guard env g :
  isPlaying g = false \/ isPaused g = true ->
  spawnTarget env g = (g, Returned) /\
  forall handle, timers g !! handle = Some SpawnInterval ->
                 step env (TimerFires handle) g = (g, Returned).
Proof.
  intros H.
  assert (spawnTarget env g = (g, Returned)) as Hs.
  { unfold spawnTarget. destruct H as [-> | ->]; [reflexivity|].
    now rewrite orb_true_r. }
  split; [exact Hs|].
  intros handle Hl. rewrite step_TimerFires. unfold fire. now rewrite Hl.
Qed.

Lemma spawnTarget_guard_witness :
  timers paused_with_stale_spawner !! 2%nat = Some SpawnInterval /\
  step (at_centre (t0 + 1000)) (TimerFires 2) paused_with_stale_spawner =
    (paused_with_stale_spawner, Returned).
Proof.
  split; [vm_compute; reflexivity|].
  apply (spawnTarget_guard (at_centre (t0 + 1000)) paused_with_stale_spawner).
  - right. vm_compute. reflexivity.
  - vm_compute. reflexivity.
Defined.

(** ** Loading the leaderboard *)

(** C3, counterexample.  A persisted text that is not JSON makes
    [loadLeaderboard] throw a SyntaxError, and [init] with it, which leaves
    the module uninitialised.  A persisted JSON text of another shape (here
    the number 42) is not treated as empty history: it becomes the
    leaderboard, and the next [endGame] throws a TypeError on it. *)
Lemma loadLeaderboard_throws :
  let broken := loaded 200 200 (Some (NotJson "{oops")) in
  let odd := loaded 200 200 (Some (JsonText (Other (JNumber 42)))) in
  (loadLeaderboard broken).2 = Threw SyntaxError /\
  (init broken).2 = Threw SyntaxError /\
  isInitialized (init broken).1 = false /\
  (init odd).2 = Returned /\
  leaderboard (init odd).1 = Other (JNumber 42) /\
  (endGame (at_centre t0) (init odd).1).2 = Threw TypeError.
Proof. vm_compute. repeat split; reflexivity. Qed.

(** C3, amended.  Loading returns normally and leaves the leaderboard as it
    is (the empty array, at load time) when nothing or the empty string is
    persisted; it returns normally, with the parsed value as the new
    leaderboard whatever its shape, when the persisted text is JSON; it
    throws a SyntaxError, assigning nothing, when the text is not JSON, and
    [init] then throws as well without setting [isInitialized]. *)
Theorem loadLeaderboard_outcomes g :
  match storage g with
  | None | Some EmptyText =>
      loadLeaderboard g = (g, Returned) /\
      leaderboard (loaded (canvasWidth g) (canvasHeight g) (storage g)) =
        Entries []
  | Some (JsonText v) =>
      loadLeaderboard g = (g <| leaderboard := v |>, Returned)
  | Some (NotJson _) =>
      loadLeaderboard g = (g, Threw SyntaxError) /\
      (init g).2 = (if isInitialized g then Returned else Threw SyntaxError) /\
      isInitialized (init g).1 = isInitialized g
  end.
Proof.
  unfold init, loadLeaderboard.
  destruct (storage g) as [[|v|s]|] eqn:Hs; auto.
  destruct (isInitialized g) eqn:Hi; simpl; rewrite ?Hs; auto.
Qed.

(** ** Commands outside their states *)

(** C4, counterexample.  Reset while running is carried out: the session
    stops and its target is gone (and the call ends with a ReferenceError).
    [endGame] on the stopped module, as initialised, applies the final-score
    formula (score 2000) and persists an entry.  [resumeGame] on the stopped
    module starts a clock, whose first tick changes [timeLeft]. *)
Lemma unguarded_commands :
  sessionState one_target = Running /\
  activeTargets one_target = [centred (t0 + 1000)] /\
  sessionState (resetGame one_target).1 = Stopped /\
  activeTargets (resetGame one_target).1 = [] /\
  (resetGame one_target).2 = Threw ReferenceError /\
  sessionState page = Stopped /\ score page = 0 /\ storage page = None /\
  score (endGame (at_centre t0) page).1 = 2000 /\
  storage (endGame (at_centre t0) page).1 =
    Some (JsonText (Entries [Entry.mk 2000 100 normal timed t0])) /\
  timeLeft page = 30 /\
  (let g := run [(at_centre t0, Call call_resumeGame);
                 (at_centre t0, TimerFires 1)] page in
   sessionState g = Stopped /\ timeLeft g = 29).
Proof. vm_compute. repeat split; reflexivity. Qed.

Lemma resetGameState_fields g :
  let g' := resetGameState g in
  score g' = 0 /\ timeLeft g' = config.gameDuration (currentMode g) /\
  targetsHit g' = 0 /\ targetsMissed g' = 0 /\ accuracy g' = 100 /\
  activeTargets g' = [].
Proof. unfold resetGameState, updateAccuracy. simpl. repeat split. Qed.

(** C4, amended.  Start while a session is running or paused is ignored:
    nothing changes.  The pause/resume command ([togglePause]) while no
    session is in progress is ignored: nothing changes.  Reset while running
    is not ignored: it stops the session, zeroes the score and the
    counters, sets the time from the mode and accuracy to 100, empties the
    active targets, and leaves the leaderboard and what is persisted
    untouched. *)
Theorem guarded_commands g :
  (isPlaying g = true -> startGame g = g) /\
  (isPlaying g = false -> togglePause g = g) /\
  (isPlaying g = true ->
   observables (resetGame g).1 =
     (Stopped, 0, config.gameDuration (currentMode g), 0, 0, 100, [], storage g)
   /\ leaderboard (resetGame g).1 = leaderboard g).
Proof.
  split; [|split].
  - intros H. unfold startGame. now rewrite H.
  - intros H. unfold togglePause. now rewrite H.
  - intros H. unfold resetGame, observables, sessionState.
    unfold resetGameState, updateAccuracy, stopGame. rewrite H. simpl.
    unfold clearInterval.
    destruct (gameTimer g); simpl; destruct (targetSpawnTimer g); simpl; auto.
Qed.

Lemma guarded_commands_witness :
  startGame one_target = one_target /\
  togglePause page = page /\
  observables (resetGame one_target).1 = (Stopped, 0, 30, 0, 0, 100, [], None).
Proof.
  destruct (guarded_commands one_target) as (Hstart & _ & Hreset).
  destruct (guarded_commands page) as (_ & Htoggle & _).
  split; [apply Hstart; vm_compute; reflexivity|].
  split; [apply Htoggle; vm_compute; reflexivity|].
  destruct Hreset as [Hobs _]; [vm_compute; reflexivity|].
  rewrite Hobs. vm_compute. reflexivity.
Defined.

(** ** Sorting the leaderboard *)

Lemma insertBy_Permutation {A : Type} (compare : A -> A -> Z) a (l : list A) :
  insertBy compare a l ≡ₚ a :: l.
Proof.
  induction l as [|b l IH]; simpl; [reflexivity|].
  destruct (0 <? compare a b); [|reflexivity].
  rewrite IH. apply Permutation_swap.
Qed.

Lemma Array_sort_Permutation {A : Type} (compare : A -> A -> Z) (l : list A) :
  Array_sort compare l ≡ₚ l.
Proof.
  induction l as [|a l IH]; simpl; [reflexivity|].
  rewrite insertBy_Permutation. now rewrite IH.
Qed.

Lemma insertBy_descending a l :
  StronglySorted descending l ->
  StronglySorted descending (insertBy byScoreDesc a l).
Proof.
  induction 1 as [|b l Hl IH Hb]; simpl.
  - repeat constructor.
  - destruct (0 <? byScoreDesc a b) eqn:Hc.
    + constructor; [exact IH|].
      rewrite insertBy_Permutation. constructor; [|exact Hb].
      apply Z.ltb_lt in Hc. unfold descending, byScoreDesc in *. lia.
    + apply Z.ltb_ge in Hc. constructor; [now constructor|].
      constructor; [unfold descending, byScoreDesc in *; lia|].
      eapply Forall_impl; [exact Hb|].
      intros c Hcb. unfold descending, byScoreDesc in *. lia.
Qed.

Lemma Array_sort_descending l :
  StronglySorted descending (Array_sort byScoreDesc l).
Proof.
  induction l as [|a l IH]; simpl; [constructor|].
  now apply insertBy_descending.
Qed.

Lemma insertBy_stable s a l :
  filter (scored s) (insertBy byScoreDesc a l) = filter (scored s) (a :: l).
Proof.
  induction l as [|b l IH]; simpl; [reflexivity|].
  destruct (0 <? byScoreDesc a b) eqn:Hc; [|reflexivity].
  apply Z.ltb_lt in Hc. unfold byScoreDesc in Hc.
  rewrite !filter_cons, IH, !filter_cons.
  destruct (decide (scored s a)) as [Ha|Ha], (decide (scored s b)) as [Hb|Hb];
    try reflexivity.
  unfold scored in *. lia.
Qed.

Lemma Array_sort_stable s l :
  filter (scored s) (Array_sort byScoreDesc l) = filter (scored s) l.
Proof.
  induction l as [|a l IH]; simpl; [reflexivity|].
  rewrite insertBy_stable, !filter_cons, IH. reflexivity.
Qed.

Lemma insertBy_head a l :
  Forall (descending a) l -> insertBy byScoreDesc a l = a :: l.
Proof.
  destruct 1 as [|b l Hb _]; simpl; [reflexivity|].
  unfold descending in Hb. unfold byScoreDesc.
  destruct (0 <? Entry.score b - Entry.score a) eqn:Hc; [|reflexivity].
  apply Z.ltb_lt in Hc. lia.
Qed.

(** A sorted leaderboard and a new entry that beats all of it: the entry
    goes first. *)
Lemma Array_sort_new_best a l :
  StronglySorted descending l -> Forall (fun b => increasing b a) l ->
  Array_sort byScoreDesc (l ++ [a]) = a :: l.
Proof.
  unfold Array_sort. rewrite foldr_app. simpl.
  induction 1 as [|b l Hl IH Hb]; intros Hlt; simpl; [reflexivity|].
  apply Forall_cons in Hlt as [Hba Hlt].
  rewrite (IH Hlt). simpl. unfold increasing in Hba.
  unfold byScoreDesc at 1.
  destruct (0 <? Entry.score a - Entry.score b) eqn:Hc.
  - now rewrite insertBy_head.
  - apply Z.ltb_ge in Hc. lia.
Qed.

Lemma saveToLeaderboard_Entries env g l :
  leaderboard g = Entries l ->
  saveToLeaderboard env g =
    (let kept := take 10 (Array_sort byScoreDesc (l ++ [entryOf env g])) in
     g <| leaderboard := Entries kept |>
       <| storage := Some (JsonText (Entries kept)) |>,
     Returned).
Proof. intros H. unfold saveToLeaderboard. rewrite H. reflexivity. Qed.

Lemma recordResult_Entries g l r :
  leaderboard g = Entries l ->
  let kept := take 10 (Array_sort byScoreDesc (l ++ [r])) in
  leaderboard (recordResult g r) = Entries kept /\
  storage (recordResult g r) = Some (JsonText (Entries kept)).
Proof.
  intros H. unfold recordResult.
  rewrite (saveToLeaderboard_Entries _ _ l) by exact H.
  simpl. unfold entryOf. simpl. destruct r. split; reflexivity.
Qed.

Lemma StronglySorted_take {A : Type} (R : A -> A -> Prop) n (l : list A) :
  StronglySorted R l -> StronglySorted R (take n l).
Proof.
  intros H. revert n. induction H as [|a l Hl IH Ha]; intros [|n]; simpl;
    try constructor; auto.
  eapply Forall_take in Ha. exact Ha.
Qed.

Lemma increasing_rev_descending l :
  StronglySorted increasing l -> StronglySorted descending (reverse l).
Proof.
  induction 1 as [|a l Hl IH Ha]; [constructor|].
  rewrite reverse_cons.
  apply StronglySorted_app_2; [|exact IH|repeat constructor].
  intros b c Hb Hc. apply list_elem_of_singleton in Hc as ->.
  rewrite elem_of_reverse in Hb.
  rewrite Forall_forall in Ha. apply Ha in Hb.
  unfold increasing, descending in *. lia.
Qed.

(** After the results of [results], each beating the ones before, have been
    recorded in turn on an empty leaderboard, the leaderboard and the
    persisted item hold the ten best, best first. *)
Lemma record_increasing results : forall g,
  leaderboard g = Entries [] ->
  StronglySorted increasing results ->
  let g' := foldl recordResult g results in
  results <> [] ->
  leaderboard g' = Entries (take 10 (reverse results)) /\
  storage g' = Some (JsonText (Entries (take 10 (reverse results)))).
Proof.
  induction results as [|r results IH] using rev_ind; intros g Hg Hs g' Hne;
    [congruence|].
  unfold g'. rewrite foldl_app. simpl.
  apply StronglySorted_app in Hs as (Hlt & Hs & _).
  rewrite reverse_app. simpl.
  assert (leaderboard (foldl recordResult g results) =
          Entries (take 10 (reverse results))) as Hl.
  { destruct results as [|r0 results0] eqn:Hr; [exact Hg|].
    rewrite <- Hr in *. apply (IH g Hg Hs). congruence. }
  destruct (recordResult_Entries _ _ r Hl) as [H1 H2].
  assert (Array_sort byScoreDesc (take 10 (reverse results) ++ [r]) =
          r :: take 10 (reverse results)) as Hsort.
  { apply Array_sort_new_best.
    - apply StronglySorted_take. now apply increasing_rev_descending.
    - apply Forall_take. apply Forall_forall. intros b Hb.
      rewrite elem_of_reverse in Hb. apply Hlt; [exact Hb|]. now left. }
  rewrite Hsort in H1, H2.
  replace (take 10 (r :: take 10 (reverse results)))
    with (take 10 (r :: reverse results)) in H1, H2.
  - split; [exact H1|exact H2].
  - simpl. f_equal. rewrite take_take. reflexivity.
Qed.

(** C9.  [saveToLeaderboard] appends the entry made of the score, the
    accuracy, the difficulty, the mode and the time stamp, sorts all entries
    by score in descending order with entries of equal score kept in the
    order they had, keeps the first ten, and stores that list both in the
    variable and in the persisted item.  After eleven results with strictly
    increasing scores have been recorded on an empty leaderboard, the ten
    highest are persisted, highest first. *)
Theorem saveToLeaderboard_top_ten env g l :
  leaderboard g = Entries l ->
  (exists sorted,
     sorted ≡ₚ l ++ [entryOf env g] /\
     StronglySorted descending sorted /\
     (forall s, filter (scored s) sorted =
                filter (scored s) (l ++ [entryOf env g])) /\
     saveToLeaderboard env g =
       (g <| leaderboard := Entries (take 10 sorted) |>
          <| storage := Some (JsonText (Entries (take 10 sorted))) |>,
        Returned)) /\
  (l = [] ->
   forall results,
     length results = 11%nat -> StronglySorted increasing results ->
     let g' := foldl recordResult g results in
     leaderboard g' = Entries (reverse (drop 1 results)) /\
     storage g' = Some (JsonText (Entries (reverse (drop 1 results))))).
Proof.
  intros Hl. split.
  - exists (Array_sort byScoreDesc (l ++ [entryOf env g])).
    split; [apply Array_sort_Permutation|].
    split; [apply Array_sort_descending|].
    split; [intros s; apply Array_sort_stable|].
    now apply saveToLeaderboard_Entries.
  - intros -> results Hn Hs g'.
    assert (take 10 (reverse results) = reverse (drop 1 results)) as <-.
    { do 12 (destruct results as [|? results]; try discriminate Hn).
      reflexivity. }
    apply record_increasing; [exact Hl|exact Hs|].
    intros ->. discriminate Hn.
Qed.

Lemma saveToLeaderboard_top_ten_witness :
  let g' := foldl recordResult page eleven_results in
  Entry.score <$> eleven_results = [10; 20; 30; 40; 50; 60; 70; 80; 90; 100; 110] /\
  (exists kept, leaderboard g' = Entries kept /\
                storage g' = Some (JsonText (Entries kept)) /\
                Entry.score <$> kept = [110; 100; 90; 80; 70; 60; 50; 40; 30; 20]).
Proof.
  split; [reflexivity|].
  destruct (saveToLeaderboard_top_ten (at_centre t0) page [] eq_refl)
    as [_ Hrecord].
  destruct (Hrecord eq_refl eleven_results) as [H1 H2].
  - reflexivity.
  - repeat constructor; unfold increasing; simpl; lia.
  - exists (reverse (drop 1 eleven_results)).
    split; [exact H1|]. split; [exact H2|]. reflexivity.
Defined.

(** ** The end of a timed session *)

Lemma stopGame_quiet g :
  timers_ok g -> isPlaying g = true -> quiet (stopGame g).
Proof.
  intros Hok Hp. unfold quiet, only_expiries, stopGame, clearInterval.
  rewrite Hp. simpl.
  destruct (gameTimer g) eqn:Hg; simpl; destruct (targetSpawnTimer g) eqn:Hs;
    simpl; (split; [reflexivity|split; [reflexivity|]]);
    intros h t Hl; lookups; apply Hok in Hl; apply registered_running in Hl;
    destruct t; eauto; destruct Hl as (_ & _ & Hl); congruence.
Qed.

Lemma quiet_frame g g' :
  isPlaying g' = isPlaying g -> activeTargets g' = activeTargets g ->
  timers g' = timers g -> quiet g -> quiet g'.
Proof. unfold quiet, only_expiries. intros -> -> ->. auto. Qed.

Lemma fire_quiet env handle g :
  quiet g ->
  quiet (fire env handle g).1 /\
  (fire env handle g).2 = Returned /\
  variables (fire env handle g).1 = variables g.
Proof.
  intros (Hp & Ha & Ht). unfold fire.
  destruct (timers g !! handle) as [t|] eqn:Hl.
  - destruct (Ht _ _ Hl) as [target_id ->]. simpl.
    unfold expireTarget. simpl. rewrite Ha. simpl.
    split; [|split; reflexivity].
    split; [exact Hp|]. split; [exact Ha|].
    intros h t Hh. simpl in Hh. lookups. eauto.
  - repeat split; auto.
Qed.

Lemma run_cons env e history g :
  run ((env, e) :: history) g = run history (step env e g).1.
Proof. reflexivity. Qed.

Lemma run_app history1 history2 g :
  run (history1 ++ history2) g = run history2 (run history1 g).
Proof. unfold run. apply foldl_app. Qed.

Lemma run_firing_quiet due : forall g,
  quiet g ->
  quiet (run (firing due) g) /\ variables (run (firing due) g) = variables g.
Proof.
  induction due as [|[env handle] due IH]; intros g Hq; [split; auto|].
  change (firing ((env, handle) :: due))
    with ((env, TimerFires handle) :: firing due).
  rewrite run_cons. change (step env (TimerFires handle) g) with (fire env handle g).
  destruct (fire_quiet env handle g Hq) as (Hq' & _ & Hv).
  destruct (IH _ Hq') as [Hq'' Hv'].
  split; [exact Hq''|]. now rewrite Hv'.
Qed.

Lemma variables_fields g g' :
  variables g' = variables g ->
  score g' = score g /\ accuracy g' = accuracy g /\ timeLeft g' = timeLeft g /\
  targetsHit g' = targetsHit g /\ targetsMissed g' = targetsMissed g /\
  activeTargets g' = activeTargets g /\ leaderboard g' = leaderboard g /\
  storage g' = storage g /\ sessionState g' = sessionState g.
Proof.
  unfold variables, sessionState. intros H.
  repeat split;
    match goal with
    | |- ?f g' = ?f g => change (f (g' <| timers := ∅ |>) = f (g <| timers := ∅ |>))
    | |- _ => idtac
    end; try (rewrite H; reflexivity).
  change (isPlaying g') with (isPlaying (g' <| timers := ∅ |>)).
  change (isPaused g') with (isPaused (g' <| timers := ∅ |>)).
  rewrite H. reflexivity.
Qed.

Lemma saveToLeaderboard_frame env g :
  let g' := (saveToLeaderboard env g).1 in
  isPlaying g' = isPlaying g /\ isPaused g' = isPaused g /\
  score g' = score g /\ timeLeft g' = timeLeft g /\
  accuracy g' = accuracy g /\ targetsHit g' = targetsHit g /\
  targetsMissed g' = targetsMissed g /\
  activeTargets g' = activeTargets g /\ timers g' = timers g.
Proof.
  unfold saveToLeaderboard. destruct (leaderboard g); simpl; repeat split.
Qed.

Lemma stopGame_frame g :
  let g' := stopGame g in
  score g' = score g /\ timeLeft g' = timeLeft g /\ accuracy g' = accuracy g /\
  targetsHit g' = targetsHit g /\ targetsMissed g' = targetsMissed g /\
  currentDifficulty g' = currentDifficulty g /\ currentMode g' = currentMode g /\
  leaderboard g' = leaderboard g /\ storage g' = storage g /\
  isPlaying g' = false /\ isPaused g' = (if isPlaying g then false else isPaused g).
Proof.
  unfold stopGame, clearInterval. destruct (isPlaying g) eqn:Hp; simpl.
  - destruct (gameTimer g); simpl; destruct (targetSpawnTimer g); simpl;
      repeat split.
  - repeat split. exact Hp.
Qed.

(** A tick of the registered clock of a running timed session with one
    second left, in a game whose repeating timers are the registered ones: [timeLeft] reaches 0, the session is stopped, the score
    becomes (score + accuracy * 10) * multiplier, and the entry recorded
    carries that score.  After it, whatever timers of the table come due and
    in whatever order, the score, the leaderboard and the session state stay
    as they are: the formula is applied once.  A tick with more than one
    second left only decrements [timeLeft]. *)
Lemma clockTick_final_score env g handle l :
  isPlaying g = true -> isPaused g = false -> currentMode g = timed ->
  timers_ok g -> timers g !! handle = Some ClockInterval ->
  leaderboard g = Entries l -> 1 <= timeLeft g ->
  let g' := (step env (TimerFires handle) g).1 in
  let final :=
    (score g + accuracy g * 10) * config.scoreMultiplier (currentDifficulty g) in
  timeLeft g' = timeLeft g - 1 /\
  (1 < timeLeft g -> sessionState g' = Running /\ score g' = score g /\
                     leaderboard g' = leaderboard g) /\
  (timeLeft g = 1 ->
   sessionState g' = Stopped /\ score g' = final /\
   (exists e, Entry.score e = final /\ Entry.accuracy e = accuracy g /\
              leaderboard g' =
                Entries (take 10 (Array_sort byScoreDesc (l ++ [e])))) /\
   forall due,
     let g'' := run (firing due) g' in
     score g'' = final /\ leaderboard g'' = leaderboard g' /\
     storage g'' = storage g' /\ sessionState g'' = Stopped).
Proof.
  intros Hp Hq Hm Hok Hl Hlb Ht g' final.
  assert (g' = (clockTick env g).1) as Hg'.
  { unfold g'. rewrite step_TimerFires. unfold fire. now rewrite Hl. }
  clearbody g'.
  unfold clockTick in Hg'. rewrite Hm in Hg'. simpl in Hg'.
  destruct (timeLeft g - 1 <=? 0) eqn:Hz.
  - apply Z.leb_le in Hz. assert (timeLeft g = 1) as H1 by lia.
    set (g0 := assign_timeLeft (timeLeft g - 1) g) in *.
    assert (timers_ok g0) as Hok0 by (apply (timers_ok_frame g); auto).
    assert (quiet (stopGame g0)) as Hquiet by (now apply stopGame_quiet).
    unfold endGame in Hg'.
    set (g1 := calculateFinalScore (stopGame g0)) in *.
    destruct (stopGame_frame g0)
      as (Hs1 & Hs2 & Hs3 & Hs4 & Hs5 & Hs6 & Hs7 & Hs8 & Hs9 & Hs10 & Hs11).
    destruct (saveToLeaderboard_frame env g1)
      as (Hf1 & Hf2 & Hf3 & Hf4 & Hf5 & Hf6 & Hf7 & Hf8 & Hf9).
    rewrite <- Hg' in *.
    assert (score g1 = final) as Hfinal.
    { unfold g1, calculateFinalScore. simpl. rewrite Hs1, Hs3, Hs6. reflexivity. }
    assert (quiet g') as Hquiet'.
    { apply (quiet_frame (stopGame g0)); auto. }
    split; [rewrite Hf4; unfold g1, calculateFinalScore; simpl; now rewrite Hs2|].
    split; [intros; lia|]. intros _.
    split.
    { unfold sessionState. rewrite Hf1. unfold g1, calculateFinalScore.
      simpl. now rewrite Hs10. }
    split; [now rewrite Hf3|].
    split.
    + exists (entryOf env g1). split; [exact Hfinal|].
      split; [unfold entryOf, g1, calculateFinalScore; simpl; exact Hs3|].
      rewrite Hg'. rewrite (saveToLeaderboard_Entries env g1 l); [reflexivity|].
      unfold g1, calculateFinalScore. simpl. now rewrite Hs8.
    + intros due g''.
      destruct (run_firing_quiet due g' Hquiet') as [Hq'' Hv].
      apply variables_fields in Hv as (Hv1 & _ & _ & _ & _ & _ & Hv7 & Hv8 & Hv9).
      fold g'' in Hv1, Hv7, Hv8, Hv9.
      rewrite Hv1, Hv7, Hv8, Hv9, Hf3. repeat split; auto.
      unfold sessionState. rewrite Hf1. unfold g1, calculateFinalScore. simpl.
      now rewrite Hs10.
  - apply Z.leb_gt in Hz. simpl in Hg'. rewrite Hg'. simpl.
    split; [reflexivity|]. split; [|intros; lia].
    intros _. unfold sessionState. simpl. rewrite Hp, Hq. auto.
Qed.

(** ** Cancellation *)


Lemma togglePause_cancels g :
  timers_ok g -> isPlaying g = true -> isPaused g = false ->
  only_expiries (togglePause g) /\ sessionState (togglePause g) = Paused.
Proof.
  intros Hok Hp Hq. unfold togglePause, sessionState. rewrite Hp, Hq. simpl.
  unfold pauseGame, clearInterval. simpl.
  destruct (gameTimer g) eqn:Hg; simpl; destruct (targetSpawnTimer g) eqn:Hs;
    simpl; rewrite ?Hp; (split; [|reflexivity]);
    intros h t Hl; simpl in Hl; lookups; apply Hok in Hl;
    apply registered_running in Hl; destruct t; eauto;
    destruct Hl as (_ & _ & Hl); congruence.
Qed.

Lemma resetGame_quiet g : timers_ok g -> quiet (resetGame g).1.
Proof.
  intros Hok. unfold resetGame.
  assert (isPlaying (stopGame g) = false /\ only_expiries (stopGame g))
    as [Hp Ht].
  { destruct (isPlaying g) eqn:Hp.
    - destruct (stopGame_quiet g Hok Hp) as (H1 & _ & H3). now split.
    - unfold stopGame. rewrite Hp. simpl. split; [exact Hp|].
      intros h t Hl. apply Hok in Hl. apply registered_running in Hl.
      destruct t; eauto; destruct Hl as (Hl & _); congruence. }
  unfold quiet, resetGameState, updateAccuracy. simpl.
  split; [exact Hp|]. split; [reflexivity|exact Ht].
Qed.

Lemma endGame_quiet env g :
  timers_ok g -> isPlaying g = true -> quiet (endGame env g).1.
Proof.
  intros Hok Hp. unfold endGame.
  destruct (saveToLeaderboard_frame env (calculateFinalScore (stopGame g)))
    as (H1 & _ & _ & _ & _ & _ & _ & H8 & H9).
  apply (quiet_frame (stopGame g)); auto.
  now apply stopGame_quiet.
Qed.

Lemma expireTarget_absent target_id g :
  findIndex (has_id target_id) (activeTargets g) = None ->
  expireTarget target_id g = g.
Proof. intros H. unfold expireTarget. now rewrite H. Qed.

Lemma fire_expiry env handle target_id g :
  timers g !! handle = Some (ExpiryTimeout target_id) ->
  let g' := (step env (TimerFires handle) g).1 in
  isPlaying g' = isPlaying g /\ isPaused g' = isPaused g /\
  score g' = score g /\ timeLeft g' = timeLeft g /\
  targetsHit g' = targetsHit g /\
  match findIndex (has_id target_id) (activeTargets g) with
  | Some index =>
      activeTargets g' = delete index (activeTargets g) /\
      targetsMissed g' = targetsMissed g + 1
  | None => variables g' = variables g
  end.
Proof.
  intros Hl. rewrite step_TimerFires. unfold fire. rewrite Hl. simpl.
  unfold expireTarget, updateAccuracy. simpl.
  destruct (findIndex (has_id target_id) (activeTargets g)); simpl;
    repeat split.
Qed.

Lemma delete_shorter {A : Type} (l : list A) i :
  (length (delete i l) <= length l)%nat.
Proof.
  revert i. induction l as [|a l IH]; intros [|i]; simpl; auto.
  specialize (IH i). lia.
Qed.

Lemma fire_paused env handle g :
  isPlaying g = true -> isPaused g = true -> only_expiries g ->
  let g' := (fire env handle g).1 in
  (isPlaying g' = true /\ isPaused g' = true /\ only_expiries g') /\
  score g' = score g /\ timeLeft g' = timeLeft g /\
  targetsHit g' = targetsHit g /\
  (length (activeTargets g') <= length (activeTargets g))%nat.
Proof.
  intros Hp Hq Ht. unfold fire.
  destruct (timers g !! handle) as [t|] eqn:Hl; [|simpl; auto 10].
  destruct (Ht _ _ Hl) as [target_id ->]. simpl.
  unfold expireTarget, updateAccuracy. simpl.
  assert (only_expiries (g <| timers := delete handle (timers g) |>)) as Ht'.
  { intros h t Hh. simpl in Hh. lookups. eauto. }
  destruct (findIndex (has_id target_id) (activeTargets g)) as [index|];
    simpl; repeat split; auto.
  apply delete_shorter.
Qed.

Lemma run_firing_paused due : forall g,
  isPlaying g = true -> isPaused g = true -> only_expiries g ->
  let g' := run (firing due) g in
  sessionState g' = Paused /\ score g' = score g /\ timeLeft g' = timeLeft g /\
  targetsHit g' = targetsHit g /\
  (length (activeTargets g') <= length (activeTargets g))%nat.
Proof.
  induction due as [|[env handle] due IH]; intros g Hp Hq Ht.
  - simpl. unfold sessionState. rewrite Hp, Hq. auto.
  - change (firing ((env, handle) :: due))
      with ((env, TimerFires handle) :: firing due).
    rewrite run_cons.
    change (step env (TimerFires handle) g) with (fire env handle g).
    destruct (fire_paused env handle g Hp Hq Ht)
      as ((Hp' & Hq' & Ht') & Hs & Htl & Hh & Hlen).
    destruct (IH _ Hp' Hq' Ht') as (H1 & H2 & H3 & H4 & H5).
    cbv zeta. rewrite H2, H3, H4, Hs, Htl, Hh. repeat split; auto. lia.
Qed.

(** ** Counters and departures *)

(** C5, counterexample.  A running session with no target yet; one click on
    the empty canvas: no target has left the active set, by a hit or by
    expiry, and [targetsHit + targetsMissed] is 1. *)
Lemma empty_click_counts :
  let history := [(at_centre t0, StartButton);
                  (at_centre (t0 + 500), CanvasClick 10 10)] in
  let g := run history page in
  (audit history page opened).1 = g /\
  removedByHit (audit history page opened).2 = 0 /\
  removedByExpiry (audit history page opened).2 = 0 /\
  activeTargets g = [] /\
  targetsHit g + targetsMissed g = 1.
Proof. vm_compute. repeat split; reflexivity. Qed.

Ltac crunch :=
  repeat match goal with
  | |- context [if ?b then _ else _] => destruct b eqn:?; simpl
  | |- context [match ?o with Some _ => _ | None => _ end] =>
      destruct o eqn:?; simpl
  | |- context [match ?v with Entries _ => _ | Other _ => _ end] =>
      destruct v eqn:?; simpl
  | |- context [match ?m with timed => _ | endless => _ end] =>
      destruct m eqn:?; simpl
  end.

Lemma togglePause_counters g : same_counters g (togglePause g).
Proof.
  unfold same_counters, togglePause, pauseGame, resumeGame, startTimer,
    startTargetSpawning, setTimer, clearInterval. simpl.
  crunch; repeat split.
Qed.

Lemma endGame_counters env g : same_counters g (endGame env g).1.
Proof.
  unfold same_counters, endGame, saveToLeaderboard, calculateFinalScore,
    stopGame, clearInterval. simpl.
  crunch; repeat split.
Qed.

Lemma clockTick_counters env g : same_counters g (clockTick env g).1.
Proof.
  unfold clockTick. destruct (currentMode g); simpl; [|repeat split].
  destruct (timeLeft g - 1 <=? 0); [|repeat split].
  destruct (endGame_counters env (g <| timeLeft := timeLeft g - 1 |>))
    as (Hh & Hm & Ha).
  split; [exact Hh|]. split; [exact Hm|exact Ha].
Qed.

Lemma startGame_counters g :
  if isPlaying g then startGame g = g
  else targetsHit (startGame g) = 0 /\ targetsMissed (startGame g) = 0.
Proof.
  unfold startGame. destruct (isPlaying g); [reflexivity|].
  repeat split.
Qed.

Lemma resetGame_counters g :
  targetsHit (resetGame g).1 = 0 /\ targetsMissed (resetGame g).1 = 0.
Proof. repeat split. Qed.

Lemma findIndex_is_Some {A : Type} (p : A -> bool) (l : list A) i :
  findIndex p l = Some i -> length (delete i l) = (length l - 1)%nat.
Proof.
  intros H. apply length_delete.
  apply findIndex_Some in H as (a & Ha & _). eauto.
Qed.

Lemma expiry_departed env handle target_id g :
  timers g !! handle = Some (ExpiryTimeout target_id) ->
  let g' := (step env (TimerFires handle) g).1 in
  targetsHit g' = targetsHit g /\
  targetsMissed g' = targetsMissed g + departed g g' /\
  0 <= departed g g' <= 1.
Proof.
  intros Hl.
  destruct (fire_expiry env handle target_id g Hl) as (_ & _ & _ & _ & Hh & Hm).
  cbv zeta. split; [exact Hh|]. unfold departed.
  destruct (findIndex (has_id target_id) (activeTargets g)) as [index|] eqn:Hi.
  - destruct Hm as [Ha Hm]. rewrite Ha, Hm.
    rewrite (findIndex_is_Some _ _ _ Hi).
    apply findIndex_Some in Hi as (t & Ht & _).
    apply lookup_lt_Some in Ht. lia.
  - apply variables_fields in Hm as (_ & _ & _ & _ & Hm & Ha & _).
    rewrite Ha, Hm. lia.
Qed.

Lemma balanced_same g g' b :
  same_counters g g' -> balanced (g, b) -> balanced (g', b).
Proof. unfold same_counters, balanced. simpl. intros (-> & -> & _). auto. Qed.

Lemma balanced_opened g :
  targetsHit g = 0 -> targetsMissed g = 0 -> balanced (g, opened).
Proof. unfold balanced. simpl. intros -> ->. auto. Qed.

Lemma step_balanced env e g b :
  balanced (g, b) -> balanced ((step env e g).1, book env e g b).
Proof.
  intros Hb. unfold book, step.
  destruct (fromDom e && negb (isInitialized g)); [exact Hb|].
  destruct e as [| | |d|m|x y|x y|key|hidden|h|f]; simpl.
  - pose proof (startGame_counters g) as H.
    destruct (isPlaying g); simpl.
    + now rewrite H.
    + destruct H. now apply balanced_opened.
  - apply (balanced_same g); [apply togglePause_counters|exact Hb].
  - now apply balanced_opened.
  - apply (balanced_same g); [|exact Hb].
    unfold handleDifficultyChange. crunch; repeat split.
  - apply (balanced_same g); [|exact Hb].
    unfold handleModeChange. crunch; repeat split.
  - unfold handleCanvasClick.
    destruct (isPlaying g), (isPaused g); simpl; try exact Hb.
    destruct (checkTargetHit x y g) as [[i t]|]; simpl.
    + destruct Hb as [Hh Hm]. simpl in Hh, Hm. split; simpl; [|exact Hm].
      unfold departed. lia.
    + destruct Hb as [Hh Hm]. simpl in Hh, Hm. split; simpl; [exact Hh|].
      lia.
  - apply (balanced_same g); [|exact Hb].
    unfold handleCanvasMouseMove. crunch; repeat split.
  - destruct key; simpl.
    + pose proof (startGame_counters g) as H.
      destruct (isPlaying g); simpl.
      * apply (balanced_same g); [apply togglePause_counters|exact Hb].
      * destruct H. now apply balanced_opened.
    + destruct (isPlaying g && negb (isPaused g));
        [apply (balanced_same g); [apply togglePause_counters|exact Hb]
        |exact Hb].
    + destruct (isPlaying g); simpl; [exact Hb|].
      now apply balanced_opened.
    + exact Hb.
  - unfold handleVisibilityChange.
    destruct (hidden && isPlaying g && negb (isPaused g));
      [apply (balanced_same g); [apply togglePause_counters|exact Hb]
      |exact Hb].
  - destruct (timers g !! h) as [[| |target_id]|] eqn:Hl.
    + unfold fire. rewrite Hl.
      apply (balanced_same g); [apply clockTick_counters|exact Hb].
    + unfold fire. rewrite Hl.
      apply (balanced_same g); [|exact Hb].
      unfold spawnTarget. crunch; repeat split.
    + destruct (expiry_departed env h target_id g Hl) as (Hh & Hm & _).
      change (step env (TimerFires h) g) with (fire env h g) in Hh, Hm.
      destruct Hb as [Hbh Hbm]. simpl in Hbh, Hbm.
      split; simpl; [congruence|]. rewrite Hm. lia.
    + unfold fire. rewrite Hl. exact Hb.
  - destruct f; simpl.
    + apply (balanced_same g); [|exact Hb].
      unfold init, loadLeaderboard.
      destruct (isInitialized g); [repeat split|]. simpl.
      destruct (storage g) as [[|v|s]|]; repeat split.
    + pose proof (startGame_counters g) as H.
      destruct (isPlaying g); simpl.
      * now rewrite H.
      * destruct H. now apply balanced_opened.
    + apply (balanced_same g); [|exact Hb].
      unfold pauseGame, clearInterval. simpl. crunch; repeat split.
    + apply (balanced_same g); [|exact Hb]. repeat split.
    + now apply balanced_opened.
    + apply (balanced_same g); [apply endGame_counters|exact Hb].
    + apply (balanced_same g); [apply togglePause_counters|exact Hb].
Qed.

Lemma audit_balanced history : forall g b,
  balanced (g, b) -> balanced (audit history g b).
Proof.
  induction history as [|[env e] history IH]; intros g b Hb; [exact Hb|].
  unfold audit in *. simpl. apply IH. now apply step_balanced.
Qed.

Lemma audit_run history : forall g b, (audit history g b).1 = run history g.
Proof.
  induction history as [|[env e] history IH]; intros g b; [reflexivity|].
  unfold audit, run in *. simpl. apply IH.
Qed.

(** C5, amended.  Along every history of the page, [targetsHit] is the
    number of targets that left the active set by a hit, and
    [targetsMissed] is the number of targets that left it by expiry plus
    the number of clicks that resolved to no target, all counted since the
    counters were last zeroed.  Nothing is counted twice: an expiry timeout
    coming due removes one target or none, adds exactly what it removed to
    [targetsMissed] and leaves [targetsHit] alone. *)
Theorem counters_balance width height item history :
  let g := run history (loaded width height item) in
  let b := (audit history (loaded width height item) opened).2 in
  targetsHit g = removedByHit b /\
  targetsMissed g = removedByExpiry b + emptyClicks b /\
  forall env handle target_id,
    timers g !! handle = Some (ExpiryTimeout target_id) ->
    let g' := (step env (TimerFires handle) g).1 in
    targetsHit g' = targetsHit g /\
    targetsMissed g' = targetsMissed g + departed g g' /\
    0 <= departed g g' <= 1.
Proof.
  intros g b.
  pose proof (audit_balanced history (loaded width height item) opened) as H.
  destruct H as [Hh Hm]; [split; reflexivity|].
  rewrite audit_run in Hh, Hm.
  split; [exact Hh|]. split; [exact Hm|].
  intros env handle target_id Hl.
  exact (expiry_departed env handle target_id g Hl).
Qed.

(** ** Accuracy *)

Lemma updateAccuracy_accurate g : accurate (updateAccuracy g).
Proof. reflexivity. Qed.

Lemma accurate_same g g' : same_counters g g' -> accurate g -> accurate g'.
Proof. unfold same_counters, accurate. intros (-> & -> & ->). auto. Qed.

Lemma startGame_accurate g : accurate g -> accurate (startGame g).
Proof.
  intros H. unfold startGame. destruct (isPlaying g); [exact H|reflexivity].
Qed.

Lemma togglePause_accurate g : accurate g -> accurate (togglePause g).
Proof. apply accurate_same, togglePause_counters. Qed.

Lemma handle_accurate env e g : accurate g -> accurate (handle env e g).1.
Proof.
  intros H.
  destruct e as [| | |d|m|x y|x y|key|hidden|h|f]; simpl.
  - now apply startGame_accurate.
  - now apply togglePause_accurate.
  - reflexivity.
  - unfold handleDifficultyChange. destruct (negb (isPlaying g)); exact H.
  - unfold handleModeChange. destruct (negb (isPlaying g)); exact H.
  - unfold handleCanvasClick.
    destruct (negb (isPlaying g) || isPaused g); [exact H|].
    destruct (checkTargetHit x y g); [exact H|reflexivity].
  - unfold handleCanvasMouseMove.
    destruct (negb (isPlaying g) || isPaused g); exact H.
  - destruct key; simpl.
    + destruct (isPlaying g);
        [now apply togglePause_accurate|now apply startGame_accurate].
    + destruct (isPlaying g && negb (isPaused g));
        [now apply togglePause_accurate|exact H].
    + destruct (negb (isPlaying g)); [reflexivity|exact H].
    + exact H.
  - unfold handleVisibilityChange.
    destruct (hidden && isPlaying g && negb (isPaused g));
      [now apply togglePause_accurate|exact H].
  - unfold fire. destruct (timers g !! h) as [[| |target_id]|].
    + apply (accurate_same g); [apply clockTick_counters|exact H].
    + unfold spawnTarget.
      destruct (negb (isPlaying g) || isPaused g); [exact H|].
      destruct (negb (gameCanvas g)); exact H.
    + simpl. unfold expireTarget. simpl.
      destruct (findIndex (has_id target_id) (activeTargets g));
        [reflexivity|exact H].
    + exact H.
  - destruct f; simpl.
    + unfold init, loadLeaderboard.
      destruct (isInitialized g); [exact H|]. simpl.
      destruct (storage g) as [[|v|s]|]; exact H.
    + now apply startGame_accurate.
    + unfold pauseGame, clearInterval. simpl.
      destruct (gameTimer g); simpl; destruct (targetSpawnTimer g); exact H.
    + exact H.
    + reflexivity.
    + apply (accurate_same g); [apply endGame_counters|exact H].
    + now apply togglePause_accurate.
Qed.

Lemma step_accurate env e g : accurate g -> accurate (step env e g).1.
Proof.
  intros H. destruct (step_handle env e g) as [-> | ->]; [exact H|].
  now apply handle_accurate.
Qed.

Lemma run_accurate history : forall g, accurate g -> accurate (run history g).
Proof.
  induction history as [|[env e] history IH]; intros g H; [exact H|].
  rewrite run_cons. apply IH. now apply step_accurate.
Qed.

(** No history registers a hit: the only assignment that increases
    [targetsHit] is in [hitTarget], which no listener, callback or exported
    function reaches. *)
Lemma handle_no_hit env e g :
  targetsHit g = 0 -> 0 <= targetsMissed g ->
  targetsHit (handle env e g).1 = 0 /\ 0 <= targetsMissed (handle env e g).1.
Proof.
  intros Hh Hm.
  assert (forall g', same_counters g g' ->
                     targetsHit g' = 0 /\ 0 <= targetsMissed g') as Hsame.
  { intros g' (-> & -> & _). auto. }
  assert (forall g',
            same_counters g g' \/ (targetsHit g' = 0 /\ targetsMissed g' = 0) ->
            targetsHit g' = 0 /\ 0 <= targetsMissed g') as Hor.
  { intros g' [H|[-> ->]]; [now apply Hsame|split; lia]. }
  destruct e as [| | |d|m|x y|x y|key|hidden|h|f]; simpl.
  - apply Hor. pose proof (startGame_counters g) as H.
    destruct (isPlaying g); [rewrite H; left; repeat split|right; exact H].
  - apply Hsame, togglePause_counters.
  - split; [reflexivity|simpl; lia].
  - apply Hsame. unfold handleDifficultyChange. crunch; repeat split.
  - apply Hsame. unfold handleModeChange. crunch; repeat split.
  - unfold handleCanvasClick.
    destruct (negb (isPlaying g) || isPaused g); [auto|].
    destruct (checkTargetHit x y g); simpl; [auto|split; [exact Hh|lia]].
  - apply Hsame. unfold handleCanvasMouseMove. crunch; repeat split.
  - destruct key; simpl.
    + apply Hor. pose proof (startGame_counters g) as H.
      destruct (isPlaying g);
        [left; apply togglePause_counters|right; exact H].
    + destruct (isPlaying g && negb (isPaused g));
        [apply Hsame, togglePause_counters|auto].
    + destruct (negb (isPlaying g)); [split; [reflexivity|simpl; lia]|auto].
    + auto.
  - unfold handleVisibilityChange.
    destruct (hidden && isPlaying g && negb (isPaused g));
      [apply Hsame, togglePause_counters|auto].
  - unfold fire. destruct (timers g !! h) as [[| |target_id]|].
    + apply Hsame, clockTick_counters.
    + apply Hsame. unfold spawnTarget. crunch; repeat split.
    + simpl. unfold expireTarget. simpl.
      destruct (findIndex (has_id target_id) (activeTargets g)); simpl;
        [split; [exact Hh|lia]|auto].
    + auto.
  - destruct f; simpl.
    + apply Hsame. unfold init, loadLeaderboard.
      destruct (isInitialized g); [repeat split|]. simpl.
      destruct (storage g) as [[|v|s]|]; repeat split.
    + apply Hor. pose proof (startGame_counters g) as H.
      destruct (isPlaying g); [rewrite H; left; repeat split|right; exact H].
    + apply Hsame. unfold pauseGame, clearInterval. simpl.
      crunch; repeat split.
    + apply Hsame. repeat split.
    + split; [reflexivity|simpl; lia].
    + apply Hsame, endGame_counters.
    + apply Hsame, togglePause_counters.
Qed.

Lemma run_no_hit history : forall g,
  targetsHit g = 0 -> 0 <= targetsMissed g ->
  targetsHit (run history g) = 0 /\ 0 <= targetsMissed (run history g).
Proof.
  induction history as [|[env e] history IH]; intros g Hh Hm; [auto|].
  rewrite run_cons.
  destruct (step_handle env e g) as [-> | ->]; [now apply IH|].
  destruct (handle_no_hit env e g Hh Hm) as [Hh' Hm']. now apply IH.
Qed.

(** The double quotient of 0 by anything, times 100, rounds to 0. *)
Lemma Math_round_zero_quotient (v : float) :
  Number.Math_round (Number.of_Z 0 / v * 100)%float = 0.
Proof.
  unfold Number.Math_round.
  rewrite FloatAxioms.mul_spec, FloatAxioms.div_spec.
  change (Prim2SF (Number.of_Z 0)) with (S754_zero false).
  change (Prim2SF 100) with (S754_finite false 7036874417766400 (-46)).
  destruct (Prim2SF v) as [s| s| |s m e]; reflexivity.
Qed.

Lemma percentage_no_hit missed :
  percentage 0 missed = if 0 <? missed then 0 else 100.
Proof.
  unfold percentage. rewrite Z.add_0_l.
  destruct (0 <? missed); [apply Math_round_zero_quotient|reflexivity].
Qed.

Lemma roundedPercentage_no_hit missed :
  0 < missed -> roundedPercentage 0 missed = 0.
Proof. intros H. unfold roundedPercentage. apply Z.div_small. lia. Qed.


(** The doubles computed for every pair of counters with a total from 1
    to 200. *)
Lemma nearest_checked : nearest_upto 200 = true.
Proof. vm_compute. reflexivity. Qed.

Lemma nearest_upto_sound n hit missed :
  nearest_upto n = true ->
  0 <= hit -> 0 <= missed -> 0 < hit + missed <= n ->
  nearest hit missed = true.
Proof.
  unfold nearest_upto. intros H Hh Hm Ht.
  rewrite forallb_forall in H.
  specialize (H (hit + missed)).
  rewrite forallb_forall in H.
  replace missed with (hit + missed - hit) by lia.
  apply H.
  - apply list_elem_of_In, elem_of_seqZ. lia.
  - apply list_elem_of_In, elem_of_seqZ. lia.
Qed.

(** For counters with a total up to 200, hits included, the percentage is
    in range and is the exact rounding or, when the exact percentage is
    halfway between two integers, possibly the integer below it. *)
Lemma percentage_nearest hit missed :
  0 <= hit -> 0 <= missed -> 0 < hit + missed <= 200 ->
  0 <= percentage hit missed <= 100 /\
  (percentage hit missed = roundedPercentage hit missed \/
   halfway hit missed = true /\
   percentage hit missed = roundedPercentage hit missed - 1).
Proof.
  intros Hh Hm Ht.
  pose proof (nearest_upto_sound 200 hit missed nearest_checked Hh Hm Ht) as H.
  unfold nearest in H.
  apply andb_true_iff in H as [H Hn].
  apply andb_true_iff in H as [H0 H100].
  apply Z.leb_le in H0, H100. split; [lia|].
  apply orb_true_iff in Hn as [Hn|Hn].
  - left. now apply Z.eqb_eq.
  - right. apply andb_true_iff in Hn as [Htie Hn].
    split; [exact Htie|now apply Z.eqb_eq].
Qed.


(** ** What every history keeps *)

Create HintDb game.

#[local] Hint Unfold handle call fire handleKeydown handleVisibilityChange
  handleDifficultyChange handleModeChange handleCanvasClick
  handleCanvasMouseMove resetGame endGame clockTick togglePause
  startGame stopGame pauseGame resumeGame init loadLeaderboard
  saveToLeaderboard calculateFinalScore resetGameState spawnTarget
  expireTarget startTargetSpawning startTimer setTimer clearInterval
  updateAccuracy : game.

Ltac known :=
  repeat match goal with
  | H : isPlaying _ = _ |- _ => rewrite H
  | H : isPaused _ = _ |- _ => rewrite H
  end.

(** Case analysis on what the code branches on, innermost test first. *)
Ltac cases :=
  repeat (simpl; known;
          match goal with
          | |- context [match ?x with _ => _ end] =>
              lazymatch x with
              | context [match _ with _ => _ end] => fail
              | _ => destruct x eqn:?
              end
          end);
  simpl; known.

Lemma run_invariant (P : Game -> Prop) :
  (forall env e g, P g -> P (handle env e g).1) ->
  forall history g, P g -> P (run history g).
Proof.
  intros Hstep history.
  induction history as [|[env e] history IH]; intros g H; [exact H|].
  rewrite run_cons. apply IH.
  destruct (step_handle env e g) as [-> | ->]; [exact H|].
  now apply Hstep.
Qed.

Lemma handle_well_flagged env e g :
  well_flagged g -> well_flagged (handle env e g).1.
Proof.
  unfold well_flagged. intros (Hq & Ht & Hs & Hc).
  destruct (isPlaying g) eqn:Hp, (isPaused g) eqn:Hpa;
    try (specialize (Hq eq_refl); discriminate);
  destruct e as [| | |d|m|x y|x y|key|hidden|h|f];
    repeat autounfold with game; cases;
    repeat split; intros; simpl in *; try congruence; auto;
    try (rewrite Ht by reflexivity; reflexivity);
    try (rewrite Hc by assumption; reflexivity).
  rewrite H in Heqb. discriminate.
Qed.

Lemma loaded_well_flagged width height item :
  well_flagged (loaded width height item).
Proof. repeat split; simpl; congruence. Qed.

Lemma handle_in_time env e g : in_time g -> in_time (handle env e g).1.
Proof.
  unfold in_time. intros Ht.
  destruct (isPlaying g) eqn:Hp;
    [specialize (Ht eq_refl)|clear Ht];
    (destruct e as [| | |d|m|x y|x y|key|hidden|h|f];
     repeat autounfold with game; cases;
     intros Hp'; simpl in *; try discriminate; try congruence;
     repeat match goal with
            | H : (_ <=? _) = true |- _ => apply Z.leb_le in H
            | H : (_ <=? _) = false |- _ => apply Z.leb_gt in H
            | H : currentMode _ = _ |- _ => rewrite H in *
            end;
     simpl; try lia).
Qed.

Lemma loaded_in_time width height item : in_time (loaded width height item).
Proof. intros H. discriminate. Qed.

(** X1.  In every state a history reaches from the loaded page, whatever
    the events: a paused session is a session in progress; there is no
    active target while no session is in progress, nor while [gameCanvas] is
    undefined; and while a session is in progress [timeLeft] is between 1
    and 30 in timed mode and at least 999999 in endless mode. *)
Theorem session_flags width height item history :
  let g := run history (loaded width height item) in
  (isPaused g = true -> isPlaying g = true) /\
  (isPlaying g = false -> activeTargets g = []) /\
  (gameCanvas g = false -> activeTargets g = []) /\
  (isPlaying g = true ->
   match currentMode g with
   | timed => 1 <= timeLeft g <= 30
   | endless => 999999 <= timeLeft g
   end).
Proof.
  intros g.
  destruct (run_invariant well_flagged handle_well_flagged history
              (loaded width height item) (loaded_well_flagged _ _ _))
    as (Hq & Ht & _ & Hc).
  pose proof (run_invariant in_time handle_in_time history
                (loaded width height item) (loaded_in_time _ _ _)) as Htime.
  auto.
Qed.

Lemma no_points_core width height item history :
  let g := run history (loaded width height item) in
  (isPlaying g = true -> score g = 0) /\
  accuracy g = (if 0 <? targetsMissed g then 0 else 100).
Proof.
  intros g.
  destruct (run_invariant well_flagged handle_well_flagged history
              (loaded width height item) (loaded_well_flagged _ _ _))
    as (_ & _ & Hs & _).
  destruct (run_no_hit history (loaded width height item) eq_refl) as [Hh Hm];
    [simpl; lia|].
  pose proof (run_accurate history (loaded width height item) eq_refl) as Ha.
  unfold accurate in Ha. fold g in Hs, Hh, Hm, Ha.
  rewrite Hh, percentage_no_hit in Ha. auto.
Qed.

(** X3.  In every state a history reaches from the loaded page, no hit has
    been counted; the score is 0 for as long as a session is in progress (it
    is only written when the session ends); and the accuracy is 100 until the
    first miss of a session and 0 from then on. *)
Theorem no_points_during_play width height item history :
  let g := run history (loaded width height item) in
  targetsHit g = 0 /\ 0 <= targetsMissed g /\
  (isPlaying g = true -> score g = 0) /\
  accuracy g = (if 0 <? targetsMissed g then 0 else 100).
Proof.
  intros g.
  destruct (no_points_core width height item history) as (Hs & Ha).
  destruct (run_no_hit history (loaded width height item) eq_refl) as [Hh Hm];
    [simpl; lia|].
  auto.
Qed.

Lemma Forall_imap_same {A : Type} (P : A -> Prop) (f : nat -> A -> A) (l : list A) :
  (forall i a, P a -> P (f i a)) -> Forall P l -> Forall P (imap f l).
Proof.
  intros Hf H. revert f Hf.
  induction H as [|a l Ha H IH]; intros f Hf; simpl; constructor;
    [now apply Hf|].
  apply IH. intros i b Hb. now apply Hf.
Qed.

Lemma handle_uniform env e g :
  well_flagged g /\ uniform g ->
  well_flagged (handle env e g).1 /\ uniform (handle env e g).1.
Proof.
  intros [Hw Hu]. split; [now apply handle_well_flagged|].
  destruct Hw as (Hq & Ht & _). unfold uniform, sized in *.
  destruct (isPlaying g) eqn:Hp, (isPaused g) eqn:Hpa;
    try (specialize (Hq eq_refl); discriminate);
  destruct e as [| | |d|m|x y|x y|key|hidden|h|f];
    repeat autounfold with game; cases;
    try assumption; try (simpl in *; discriminate);
    try (rewrite Ht by reflexivity); try (constructor; fail);
    try (apply list.Forall_delete; assumption);
    try (apply Forall_imap_same; [intros ? ? H; exact H|assumption]);
    try (apply Forall_app; split; [assumption|repeat constructor]).
Qed.

(** X2.  In every state a history reaches from the loaded page, each active
    target has the radius and the lifetime the configuration gives for the
    current difficulty, and its [opacity] field is still 1: the difficulty
    cannot change under the targets of a session. *)
Theorem targets_share_difficulty width height item history :
  let g := run history (loaded width height item) in
  Forall (sized g) (activeTargets g).
Proof.
  intros g.
  apply (run_invariant (fun g => well_flagged g /\ uniform g) handle_uniform
           history (loaded width height item)).
  split; [apply loaded_well_flagged|constructor].
Qed.

Lemma handle_fresh env e g : fresh g -> fresh (handle env e g).1.
Proof.
  unfold fresh. intros Hf.
  destruct e as [| | |d|m|x y|x y|key|hidden|h|f];
    repeat autounfold with game; cases; try assumption;
    intros h' t' Hl; simpl in *; lookups; simpl; try lia;
    apply Hf in Hl; lia.
Qed.

Lemma handle_ticking env e g :
  bare e = false -> timers_ok g -> fresh g ->
  (isPlaying g = true -> isPaused g = false -> ticking g) ->
  isPlaying (handle env e g).1 = true -> isPaused (handle env e g).1 = false ->
  ticking (handle env e g).1.
Proof.
  intros He Hok Hf Hr. unfold ticking in *.
  destruct (isPlaying g) eqn:Hp, (isPaused g) eqn:Hpa;
  destruct e as [| | |d|m|x y|x y|key|hidden|h|f]; try discriminate He;
    repeat autounfold with game; cases;
    intros Hp' Hpa'; simpl in *; try discriminate; try congruence;
    try (now apply Hr);
    try (eexists _, _; repeat split; simpl;
         [now rewrite lookup_insert_ne, lookup_insert_eq by lia
         |now rewrite lookup_insert_eq]).
  all: destruct (Hr eq_refl eq_refl) as (c & s & Hc & Hlc & Hs & Hls);
    exists c, s; repeat split; try assumption.
  - rewrite lookup_insert_ne; [exact Hlc|]. apply Hf in Hlc. lia.
  - rewrite lookup_insert_ne; [exact Hls|]. apply Hf in Hls. lia.
  - rewrite lookup_delete_ne; [exact Hlc|]. congruence.
  - rewrite lookup_delete_ne; [exact Hls|]. congruence.
  - rewrite lookup_delete_ne; [exact Hlc|]. congruence.
  - rewrite lookup_delete_ne; [exact Hls|]. congruence.
Qed.

Lemma handle_foreign v env e g :
  isInitialized g = true /\ leaderboard g = Other v /\
  storage g = Some (JsonText (Other v)) ->
  let g' := (handle env e g).1 in
  isInitialized g' = true /\ leaderboard g' = Other v /\
  storage g' = Some (JsonText (Other v)).
Proof.
  intros (Hi & Hl & Hs).
  destruct e as [| | |d|m|x y|x y|key|hidden|h|f];
    repeat autounfold with game;
    repeat (simpl; rewrite ?Hl, ?Hi;
            match goal with
            | |- context [match ?x with _ => _ end] =>
                lazymatch x with
                | context [match _ with _ => _ end] => fail
                | _ => destruct x eqn:?
                end
            end);
    simpl; rewrite ?Hl, ?Hi; auto.
Qed.

Lemma bare_leaks e : bare e = false -> leaks e = false.
Proof. destruct e as [| | | | | | | | | |[]]; simpl; congruence. Qed.

Lemma run_ticking history : forall g,
  forallb (fun ee => negb (bare ee.2)) history = true ->
  timers_ok g -> fresh g ->
  (isPlaying g = true -> isPaused g = false -> ticking g) ->
  let g' := run history g in
  timers_ok g' /\ fresh g' /\
  (isPlaying g' = true -> isPaused g' = false -> ticking g').
Proof.
  induction history as [|[env e] history IH]; intros g Hh Hok Hf Hr;
    [simpl; auto|].
  simpl in Hh. apply andb_true_iff in Hh as [He Hh].
  apply negb_true_iff in He. rewrite run_cons.
  destruct (step_handle env e g) as [-> | ->]; [now apply IH|].
  apply IH; [exact Hh| | |].
  - apply handle_timers_ok; [now apply bare_leaks|exact Hok].
  - now apply handle_fresh.
  - now apply handle_ticking.
Qed.

Lemma loaded_fresh width height item : fresh (loaded width height item).
Proof. intros h t Hl. simpl in Hl. rewrite lookup_empty in Hl. discriminate. Qed.

Lemma timers_ok_single g h1 h2 t :
  timers_ok g -> (forall id, t <> ExpiryTimeout id) ->
  timers g !! h1 = Some t -> timers g !! h2 = Some t -> h1 = h2.
Proof.
  intros Hok Ht H1 H2. apply Hok, registered_running in H1, H2.
  destruct t as [| |id]; [| |now destruct (Ht id)];
    destruct H1 as (_ & _ & H1), H2 as (_ & _ & H2); congruence.
Qed.

Lemma timers_ok_only_expiries g :
  timers_ok g -> sessionState g <> Running -> only_expiries g.
Proof.
  intros Hok Hs h t Hl. apply Hok, registered_running in Hl.
  unfold sessionState in Hs.
  destruct t as [| |id]; [| |now exists id];
    destruct Hl as (Hp & Hq & _); rewrite Hp, Hq in Hs; now destruct Hs.
Qed.

(** X4.  Along a history in which [pauseGame] and [resumeGame] are only
    reached through [togglePause], the intervals follow the session: while it
    is running, the clock and the spawner are in the timer table under the
    handles held in [gameTimer] and [targetSpawnTimer]; while it is not, the
    table holds expiry timeouts only; and the table never holds two clocks or
    two spawners. *)
Theorem intervals_follow_session width height item history :
  forallb (fun ee => negb (bare ee.2)) history = true ->
  let g := run history (loaded width height item) in
  (sessionState g = Running -> ticking g) /\
  (sessionState g <> Running -> only_expiries g) /\
  (forall h1 h2 t, (forall id, t <> ExpiryTimeout id) ->
                   timers g !! h1 = Some t -> timers g !! h2 = Some t ->
                   h1 = h2).
Proof.
  intros Hh g.
  destruct (run_ticking history (loaded width height item) Hh
              (loaded_timers_ok _ _ _) (loaded_fresh _ _ _)) as (Hok & Hf & Hr);
    [discriminate|].
  fold g in Hok, Hf, Hr. split; [|split].
  - unfold sessionState. intros Hs. apply Hr.
    + destruct (isPlaying g); [reflexivity|discriminate].
    + destruct (isPlaying g), (isPaused g); try discriminate; reflexivity.
  - now apply timers_ok_only_expiries.
  - intros h1 h2 t Ht. now apply timers_ok_single.
Qed.

Lemma intervals_follow_session_witness :
  let g := run a_session (loaded 200 200 None) in
  sessionState g = Running /\ ticking g.
Proof.
  intros g. split; [vm_compute; reflexivity|].
  destruct (intervals_follow_session 200 200 None a_session eq_refl) as [H _].
  apply H. vm_compute. reflexivity.
Defined.

(** ** The length of a session *)

Lemma unattended_leaks e : unattended e = true -> leaks e = false.
Proof. destruct e; simpl; congruence. Qed.

Lemma step_fresh env e g : fresh g -> fresh (step env e g).1.
Proof.
  intros H. destruct (step_handle env e g) as [-> | ->]; [exact H|].
  now apply handle_fresh.
Qed.

(** A step that is not a tick of the clock leaves the session and its
    clock as they are. *)
Lemma unattended_step clock env e g :
  unattended e = true -> is_tick clock e = false -> on_the_clock clock g ->
  let g' := (step env e g).1 in
  on_the_clock clock g' /\ timeLeft g' = timeLeft g /\
  currentMode g' = currentMode g.
Proof.
  intros He Ht (Hp & Hq & Hok & Hf & Hc) g'.
  assert (timers_ok g') as Hok'
    by (apply step_timers_ok; [now apply unattended_leaks|exact Hok]).
  assert (fresh g') as Hf' by now apply step_fresh.
  unfold on_the_clock.
  enough (isPlaying g' = true /\ isPaused g' = false /\
          timers g' !! clock = Some ClockInterval /\
          timeLeft g' = timeLeft g /\ currentMode g' = currentMode g)
    by (intuition idtac).
  clear Hok' Hf'. subst g'.
  destruct (step_handle env e g) as [-> | ->]; [simpl; auto|].
  destruct e as [| | |d|m|x y|x y|key|hidden|h|f]; try discriminate He.
  - repeat autounfold with game; cases; auto.
  - repeat autounfold with game; cases; auto.
  - simpl in Ht. apply bool_decide_eq_false in Ht.
    simpl. unfold fire. destruct (timers g !! h) as [[| |id]|] eqn:Hh.
    + destruct Ht. now apply (timers_ok_single g h clock ClockInterval).
    + unfold spawnTarget. rewrite Hp, Hq. simpl.
      destruct (negb (gameCanvas g)); simpl; [auto|].
      repeat split; auto. rewrite lookup_insert_ne; [exact Hc|].
      apply Hf in Hc. lia.
    + unfold expireTarget, updateAccuracy. simpl.
      destruct (findIndex _ _); simpl; repeat split; auto;
        (rewrite lookup_delete_ne; [exact Hc|congruence]).
    + auto.
Qed.

Lemma endGame_stops env g :
  sessionState (endGame env g).1 = Stopped /\
  timeLeft (endGame env g).1 = timeLeft g.
Proof.
  unfold sessionState. destruct (isPlaying g) eqn:Hp;
    repeat autounfold with game; cases; simpl in *; try discriminate; auto.
Qed.

(** A tick of the clock. *)
Lemma tick_step clock env g :
  on_the_clock clock g ->
  let g' := (step env (TimerFires clock) g).1 in
  match currentMode g with
  | timed =>
      timeLeft g' = timeLeft g - 1 /\
      (1 < timeLeft g -> on_the_clock clock g' /\ currentMode g' = timed) /\
      (timeLeft g <= 1 -> sessionState g' = Stopped)
  | endless =>
      timeLeft g' = timeLeft g + 1 /\ on_the_clock clock g' /\
      currentMode g' = endless
  end.
Proof.
  intros (Hp & Hq & Hok & Hf & Hc) g'. subst g'.
  rewrite step_TimerFires. unfold fire. rewrite Hc. unfold clockTick.
  destruct (currentMode g) eqn:Hm.
  - simpl. destruct (timeLeft g - 1 <=? 0) eqn:Hz.
    + apply Z.leb_le in Hz.
      destruct (endGame_stops env (g <| timeLeft := timeLeft g - 1 |>))
        as [Hs Ht].
      split; [exact Ht|split; [lia|auto]].
    + apply Z.leb_gt in Hz. simpl. repeat split; auto; try lia.
  - simpl. repeat split; auto.
Qed.

Lemma ticks_nonneg clock history : 0 <= ticks clock history.
Proof.
  induction history as [|[env e] history IH]; simpl; [lia|].
  destruct (is_tick clock e); lia.
Qed.

Lemma is_tick_true clock e : is_tick clock e = true -> e = TimerFires clock.
Proof.
  destruct e; simpl; try discriminate.
  intros H. apply bool_decide_eq_true in H. now subst.
Qed.

Lemma run_unattended clock history : forall g,
  on_the_clock clock g ->
  forallb (fun ee => unattended ee.2) history = true ->
  let g' := run history g in
  match currentMode g with
  | timed =>
      ticks clock history < timeLeft g ->
      on_the_clock clock g' /\ currentMode g' = timed /\
      timeLeft g' = timeLeft g - ticks clock history
  | endless =>
      on_the_clock clock g' /\ currentMode g' = endless /\
      timeLeft g' = timeLeft g + ticks clock history
  end.
Proof.
  induction history as [|[env e] history IH]; intros g Hon Hh.
  - simpl. destruct (currentMode g) eqn:Hm; [intros _|];
      repeat split; try apply Hon; auto; lia.
  - simpl in Hh. apply andb_true_iff in Hh as [He Hh].
    cbv zeta. rewrite run_cons. simpl ticks.
    pose proof (ticks_nonneg clock history) as Hn.
    destruct (is_tick clock e) eqn:Ht.
    + apply is_tick_true in Ht. subst e.
      pose proof (tick_step clock env g Hon) as Hstep. cbv zeta in Hstep.
      destruct (currentMode g) eqn:Hm.
      * intros Hlt. destruct Hstep as (Htime & Hgo & _).
        destruct Hgo as [Hon' Hm']; [lia|].
        specialize (IH _ Hon' Hh). cbv zeta in IH. rewrite Hm' in IH.
        destruct IH as (? & ? & IH); [lia|].
        split; [assumption|split; [assumption|lia]].
      * destruct Hstep as (Htime & Hon' & Hm').
        specialize (IH _ Hon' Hh). cbv zeta in IH. rewrite Hm' in IH.
        destruct IH as (? & ? & IH).
        split; [assumption|split; [assumption|lia]].
    + destruct (unattended_step clock env e g He Ht Hon) as (Hon' & Htime & Hm').
      specialize (IH _ Hon' Hh). cbv zeta in IH. rewrite Hm', Htime in IH.
      destruct (currentMode g);
        [intros Hlt; destruct IH as (? & ? & IH); [lia|]
        |destruct IH as (? & ? & IH)];
        (split; [assumption|split; [assumption|lia]]).
Qed.

Lemma startGame_on_the_clock g :
  isPlaying g = false -> timers_ok g -> fresh g ->
  on_the_clock (nextHandle g) (startGame g) /\
  timeLeft (startGame g) = config.gameDuration (currentMode g) /\
  currentMode (startGame g) = currentMode g.
Proof.
  intros Hp Hok Hf. split; [|unfold startGame; rewrite Hp; simpl; auto].
  split; [|split; [|split; [|split]]].
  - unfold startGame. now rewrite Hp.
  - unfold startGame. now rewrite Hp.
  - now apply startGame_timers_ok.
  - apply (handle_fresh (mkEnv 0 0 0 0) StartButton g Hf).
  - unfold startGame. rewrite Hp. simpl.
    rewrite lookup_insert_ne by lia. now rewrite lookup_insert_eq.
Qed.

(** A timed session started on a stopped game whose table holds no interval
    and only handles already given out. *)
Lemma startGame_timed_length g history :
  isPlaying g = false -> currentMode g = timed -> timers_ok g -> fresh g ->
  forallb (fun ee => unattended ee.2) history = true ->
  let clock := nextHandle g in
  let g' := run history (startGame g) in
  (ticks clock history < 30 ->
   sessionState g' = Running /\ timeLeft g' = 30 - ticks clock history) /\
  (ticks clock history = 29 ->
   forall env,
     sessionState (step env (TimerFires clock) g').1 = Stopped /\
     timeLeft (step env (TimerFires clock) g').1 = 0).
Proof.
  intros Hp Hm Hok Hf Hh clock g'.
  destruct (startGame_on_the_clock g Hp Hok Hf) as (Hon & Htime & Hm').
  pose proof (run_unattended clock history (startGame g) Hon Hh) as Hrun.
  cbv zeta in Hrun. rewrite Hm', Hm, Htime, Hm in Hrun. simpl in Hrun.
  fold g' in Hrun.
  assert (ticks clock history < 30 ->
          sessionState g' = Running /\ timeLeft g' = 30 - ticks clock history)
    as Hbefore.
  { intros Hlt. destruct (Hrun Hlt) as ((Hp' & Hq' & _) & _ & Ht).
    unfold sessionState. now rewrite Hp', Hq'. }
  split; [exact Hbefore|]. intros Hlast env.
  destruct Hrun as (Hon' & Hm'' & Ht); [lia|].
  pose proof (tick_step clock env g' Hon') as Hstep. cbv zeta in Hstep.
  rewrite Hm'' in Hstep. destruct Hstep as (Htick & _ & Hstop).
  split; [apply Hstop|]; lia.
Qed.

(** The same for an endless session. *)
Lemma startGame_endless_length g history :
  isPlaying g = false -> currentMode g = endless -> timers_ok g -> fresh g ->
  forallb (fun ee => unattended ee.2) history = true ->
  let g' := run history (startGame g) in
  sessionState g' = Running /\
  timeLeft g' = 999999 + ticks (nextHandle g) history.
Proof.
  intros Hp Hm Hok Hf Hh g'.
  destruct (startGame_on_the_clock g Hp Hok Hf) as (Hon & Htime & Hm').
  pose proof (run_unattended (nextHandle g) history (startGame g) Hon Hh)
    as Hrun.
  cbv zeta in Hrun. rewrite Hm', Hm, Htime, Hm in Hrun. simpl in Hrun.
  fold g' in Hrun. destruct Hrun as ((Hp' & Hq' & _) & _ & Ht).
  unfold sessionState. now rewrite Hp', Hq'.
Qed.

Lemma run_ready width height item before :
  forallb (fun ee => negb (leaks ee.2)) before = true ->
  timers_ok (run before (loaded width height item)) /\
  fresh (run before (loaded width height item)).
Proof.
  intros Hb. split.
  - apply run_timers_ok; [exact Hb|apply loaded_timers_ok].
  - apply (run_invariant fresh handle_fresh), loaded_fresh.
Qed.

(** X5.  On a page on which [resumeGame] has not been called directly (so
    that no interval is left over at rest), a timed session started from
    rest lasts exactly 30 ticks of its clock, whatever the pointer does on
    the canvas and whichever spawns and expiries come due in between: after
    fewer than 30 ticks it is running with [30 - ticks] seconds left, and
    the 30th tick stops it at 0. *)
Theorem timed_session_length width height item before history :
  forallb (fun ee => negb (leaks ee.2)) before = true ->
  let g := run before (loaded width height item) in
  isPlaying g = false -> currentMode g = timed ->
  forallb (fun ee => unattended ee.2) history = true ->
  let clock := nextHandle g in
  let g' := run history (startGame g) in
  (ticks clock history < 30 ->
   sessionState g' = Running /\ timeLeft g' = 30 - ticks clock history) /\
  (ticks clock history = 29 ->
   forall env,
     sessionState (step env (TimerFires clock) g').1 = Stopped /\
     timeLeft (step env (TimerFires clock) g').1 = 0).
Proof.
  intros Hb g Hp Hm Hh.
  destruct (run_ready width height item before Hb) as [Hok Hf].
  now apply startGame_timed_length.
Qed.

(** X6.  On a page on which [resumeGame] has not been called directly, an
    endless session started from rest is never stopped by its clock: however
    many ticks, moves, clicks, spawns and expiries, it is still running, and
    [timeLeft], which [startGame] sets to 999999, has gone up by one per
    tick of that clock. *)
Theorem endless_session_never_ends width height item before history :
  forallb (fun ee => negb (leaks ee.2)) before = true ->
  let g := run before (loaded width height item) in
  isPlaying g = false -> currentMode g = endless ->
  forallb (fun ee => unattended ee.2) history = true ->
  let g' := run history (startGame g) in
  sessionState g' = Running /\
  timeLeft g' = 999999 + ticks (nextHandle g) history.
Proof.
  intros Hb g Hp Hm Hh.
  destruct (run_ready width height item before Hb) as [Hok Hf].
  now apply startGame_endless_length.
Qed.

Lemma page_ready : isPlaying page = false /\ timers_ok page /\ fresh page.
Proof.
  split; [reflexivity|]. split.
  - apply init_timers_ok, loaded_timers_ok.
  - apply (handle_fresh (at_centre t0) (Call call_init)), loaded_fresh.
Qed.

Lemma timed_session_length_witness :
  let g := run to_page (loaded 200 200 None) in
  let g' := run idle_seconds (startGame g) in
  ticks 1 idle_seconds = 29 /\
  sessionState g' = Running /\ timeLeft g' = 1 /\
  sessionState (step (at_centre (t0 + 30000)) (TimerFires 1) g').1 = Stopped.
Proof.
  destruct (timed_session_length 200 200 None to_page idle_seconds
              eq_refl eq_refl eq_refl eq_refl) as [Hbefore Hlast].
  destruct Hbefore as [Hs Ht]; [vm_compute; reflexivity|].
  destruct (Hlast eq_refl (at_centre (t0 + 30000))) as [Hstop _].
  split; [reflexivity|]. split; [exact Hs|]. split; [exact Ht|exact Hstop].
Defined.

Lemma endless_session_never_ends_witness :
  let g := run to_endless_page (loaded 200 200 None) in
  let g' := run idle_seconds (startGame g) in
  sessionState g' = Running /\ timeLeft g' = 1000028.
Proof.
  apply (endless_session_never_ends 200 200 None to_endless_page idle_seconds);
    reflexivity.
Defined.

(** ** Pausing and resuming *)

(** X7.  Pause followed by resume brings a running session back as it was:
    same state, score, time left, counters, accuracy, targets, leaderboard
    and settings; the pending expiry timeouts are exactly those from before;
    and the clock and the spawner run again, under two new handles. *)
Theorem pause_resume_round_trip g :
  isPlaying g = true -> isPaused g = false ->
  timers_ok g -> fresh g -> ticking g ->
  let g' := togglePause (togglePause g) in
  observables g' = observables g /\
  leaderboard g' = leaderboard g /\
  currentDifficulty g' = currentDifficulty g /\
  currentMode g' = currentMode g /\
  timers_ok g' /\ ticking g' /\
  gameTimer g' = Some (nextHandle g) /\
  targetSpawnTimer g' = Some (S (nextHandle g)) /\
  forall handle id,
    timers g' !! handle = Some (ExpiryTimeout id) <->
    timers g !! handle = Some (ExpiryTimeout id).
Proof.
  intros Hp Hq Hok Hf (c & s & Hc & Hlc & Hs & Hls) g'.
  assert (timers_ok g') as Hok' by now do 2 apply togglePause_timers_ok.
  subst g'. revert Hok'.
  unfold togglePause, pauseGame, resumeGame, startTargetSpawning, startTimer,
    setTimer, clearInterval, observables, sessionState, ticking.
  repeat (progress (simpl; rewrite ?Hp, ?Hq, ?Hc, ?Hs)).
  intros Hok'. repeat split; auto.
  - exists (nextHandle g), (S (nextHandle g)). repeat split.
    + rewrite lookup_insert_ne by lia. now rewrite lookup_insert_eq.
    + now rewrite lookup_insert_eq.
  - intros Hl.
    apply lookup_insert_Some in Hl as [[_ ?]|[_ Hl]]; [discriminate|].
    apply lookup_insert_Some in Hl as [[_ ?]|[_ Hl]]; [discriminate|].
    apply lookup_delete_Some in Hl as [_ Hl].
    now apply lookup_delete_Some in Hl as [_ Hl].
  - intros Hl. pose proof (Hf _ _ Hl) as Hlt.
    rewrite !lookup_insert_ne by lia.
    rewrite !lookup_delete_ne by congruence. exact Hl.
Qed.

Lemma one_target_ready :
  timers_ok one_target /\ fresh one_target /\ ticking one_target.
Proof.
  split; [apply timers_okb_sound; vm_compute; reflexivity|]. split.
  - apply (run_invariant fresh handle_fresh). apply page_ready.
  - exists 1%nat, 2%nat. vm_compute. auto.
Qed.

Lemma pause_resume_round_trip_witness :
  let g' := togglePause (togglePause one_target) in
  observables g' = observables one_target /\
  gameTimer one_target = Some 1%nat /\ gameTimer g' = Some 4%nat /\
  timers g' !! 3%nat = Some (ExpiryTimeout (Target.id (centred (t0 + 1000)))).
Proof.
  destruct one_target_ready as (Hok & Hf & Ht).
  destruct (pause_resume_round_trip one_target eq_refl eq_refl Hok Hf Ht)
    as (Hobs & _ & _ & _ & _ & _ & Hg & _ & Hexp).
  cbv zeta. split; [exact Hobs|]. split; [vm_compute; reflexivity|].
  split; [rewrite Hg; vm_compute; reflexivity|].
  apply Hexp. vm_compute. reflexivity.
Defined.

(** X8.  [resumeGame] called directly on a running session registers a
    second clock and forgets the handle of the first, which stays in the
    table: pausing then cancels the new clock only, and the old one goes on
    taking seconds off a paused timed session. *)
Theorem resumeGame_leaks_intervals g :
  isPlaying g = true -> isPaused g = false -> fresh g -> ticking g ->
  let leaked := resumeGame g in
  let paused := togglePause leaked in
  exists old,
    gameTimer g = Some old /\ gameTimer leaked = Some (nextHandle g) /\
    old <> nextHandle g /\
    timers leaked !! old = Some ClockInterval /\
    timers leaked !! nextHandle g = Some ClockInterval /\
    sessionState paused = Paused /\
    timers paused !! old = Some ClockInterval /\
    timers paused !! nextHandle g = None /\
    (currentMode g = timed -> 1 < timeLeft g ->
     forall env,
       let g' := (step env (TimerFires old) paused).1 in
       sessionState g' = Paused /\ timeLeft g' = timeLeft g - 1).
Proof.
  intros Hp Hq Hf (c & s & Hc & Hlc & Hs & Hls) leaked paused.
  pose proof (Hf _ _ Hlc) as Hlt.
  assert (timers leaked = <[S (nextHandle g) := SpawnInterval]>
                            (<[nextHandle g := ClockInterval]> (timers g)))
    as Hleaked by reflexivity.
  assert (paused =
            leaked <| isPaused := true |>
                   <| timers := delete (nextHandle g) (timers leaked) |>
                   <| timers := delete (S (nextHandle g))
                                  (delete (nextHandle g) (timers leaked)) |>)
    as Hpaused.
  { subst paused leaked.
    unfold togglePause, pauseGame, resumeGame, startTargetSpawning, startTimer,
      setTimer, clearInterval.
    repeat (progress (simpl; rewrite ?Hp, ?Hq)). reflexivity. }
  assert (timers paused !! c = Some ClockInterval) as Hold.
  { rewrite Hpaused. simpl. rewrite !lookup_delete_ne by lia.
    rewrite !lookup_insert_ne by lia. exact Hlc. }
  exists c. split; [exact Hc|]. split; [reflexivity|]. split; [lia|].
  split; [rewrite Hleaked, !lookup_insert_ne by lia; exact Hlc|].
  split; [rewrite Hleaked, lookup_insert_ne by lia; now rewrite lookup_insert_eq|].
  split; [rewrite Hpaused; unfold sessionState; simpl; now rewrite Hp|].
  split; [exact Hold|].
  split.
  { rewrite Hpaused. simpl. rewrite lookup_delete_ne by lia.
    now rewrite lookup_delete_eq. }
  intros Hm Htime env. cbv zeta.
  rewrite step_TimerFires. unfold fire. rewrite Hold. unfold clockTick.
  replace (currentMode paused) with timed by (now rewrite Hpaused).
  replace (timeLeft paused) with (timeLeft g) by (now rewrite Hpaused).
  simpl. destruct (timeLeft g - 1 <=? 0) eqn:Hz; [apply Z.leb_le in Hz; lia|].
  simpl. split; [|reflexivity].
  rewrite Hpaused. unfold sessionState. simpl. now rewrite Hp.
Qed.

Lemma resumeGame_leaks_intervals_witness :
  let paused := togglePause (resumeGame one_target) in
  sessionState paused = Paused /\
  timers paused !! 1%nat = Some ClockInterval /\
  timeLeft (step (at_centre (t0 + 2000)) (TimerFires 1) paused).1 = 29.
Proof.
  destruct one_target_ready as (_ & Hf & Ht).
  destruct (resumeGame_leaks_intervals one_target eq_refl eq_refl Hf Ht)
    as (old & Hold & _ & _ & _ & _ & Hs & Hl & _ & Htick).
  assert (old = 1%nat) as -> by (vm_compute in Hold; congruence).
  cbv zeta. split; [exact Hs|]. split; [exact Hl|].
  destruct (Htick eq_refl) with (env := at_centre (t0 + 2000)) as [_ Htime];
    [vm_compute; reflexivity|].
  rewrite Htime. vm_compute. reflexivity.
Defined.

(** ** The leaderboard across visits *)

(** X10.  When the stored text is JSON but not an array, [init] succeeds and
    the value becomes the leaderboard for good: in every state reached
    afterwards the leaderboard and the stored item are unchanged, and
    [endGame] stops the session but throws a TypeError at [push], so that no
    result is ever stored. *)
Theorem foreign_leaderboard_never_saved width height v history env :
  let g0 := loaded width height (Some (JsonText (Other v))) in
  let g := run history (init g0).1 in
  (init g0).2 = Returned /\ isInitialized g = true /\
  leaderboard g = Other v /\ storage g = Some (JsonText (Other v)) /\
  (endGame env g).2 = Threw TypeError /\
  sessionState (endGame env g).1 = Stopped /\
  storage (endGame env g).1 = Some (JsonText (Other v)).
Proof.
  intros g0 g. split; [reflexivity|].
  destruct (run_invariant _ (handle_foreign v) history (init g0).1)
    as (Hi & Hl & Hs); [repeat split|].
  fold g in Hi, Hl, Hs. split; [exact Hi|]. split; [exact Hl|].
  split; [exact Hs|].
  destruct (endGame_stops env g) as [Hstop _]. split; [|split; [exact Hstop|]].
  - unfold endGame, saveToLeaderboard. simpl.
    replace (leaderboard (stopGame g)) with (Other v); [reflexivity|].
    rewrite <- Hl. symmetry. apply stopGame_frame.
  - unfold endGame, saveToLeaderboard. simpl.
    replace (leaderboard (stopGame g)) with (Other v).
    + simpl. rewrite <- Hs. apply stopGame_frame.
    + rewrite <- Hl. symmetry. apply stopGame_frame.
Qed.

(** ** Initialisation *)

(** X11.  [init] is idempotent: once it has succeeded a second call changes
    nothing and returns, and after a failure a second call fails in the same
    way and leaves the same state. *)
Theorem init_idempotent g : init (init g).1 = init g.
Proof.
  unfold init, loadLeaderboard.
  destruct (isInitialized g) eqn:Hi; simpl; [now rewrite Hi|].
  destruct (storage g) as [[|v|text]|] eqn:Hs; simpl; rewrite ?Hi, ?Hs;
    reflexivity.
Qed.

(** X12.  What the page's [loadSectionModule('game')] leaves behind on a
    freshly loaded module: calling it again changes nothing; the module is
    initialised unless the stored text is not JSON, and in that case no
    listener was installed, so that no event of the DOM changes anything. *)
Theorem loadSectionModule_outcome width height item history :
  forallb (fun ee => fromDom ee.2) history = true ->
  let g := loadSectionModule "game" (loaded width height item) in
  loadSectionModule "game" g = g /\
  match item with
  | Some (NotJson _) => isInitialized g = false /\ run history g = g
  | _ => isInitialized g = true
  end.
Proof.
  intros Hh g. split.
  - subst g. unfold loadSectionModule. simpl.
    destruct item as [[|v|text]|]; reflexivity.
  - destruct item as [[|v|text]|]; try reflexivity.
    split; [reflexivity|]. subst g. unfold loadSectionModule. simpl.
    set (g := assign_gameCanvas _ _).
    assert (isInitialized g = false) as Hi by reflexivity. clearbody g.
    induction history as [|[env e] history IH]; [reflexivity|].
    simpl in Hh. apply andb_true_iff in Hh as [He Hh].
    rewrite run_cons. unfold step. rewrite He, Hi. simpl. now apply IH.
Qed.

Lemma loadSectionModule_outcome_witness :
  let g := loadSectionModule "game" (loaded 200 200 (Some (NotJson "{oops"))) in
  isInitialized g = false /\
  run [(at_centre t0, StartButton); (at_centre t0, KeyDown Space)] g = g.
Proof.
  apply (loadSectionModule_outcome 200 200 (Some (NotJson "{oops"))
           [(at_centre t0, StartButton); (at_centre t0, KeyDown Space)]).
  reflexivity.
Defined.

(** ** The target under the pointer *)

(** X13.  [checkTargetHit] returns a target exactly when it is the covering
    target with the greatest index, the one spawned last and drawn on top;
    it returns nothing exactly when no active target covers the point. *)
Theorem checkTargetHit_topmost x y g :
  (forall i t,
     checkTargetHit x y g = Some (i, t) <->
     activeTargets g !! i = Some t /\ covers x y t = true /\
     forall j u, (i < j)%nat -> activeTargets g !! j = Some u ->
                 covers x y u = false) /\
  (checkTargetHit x y g = None <->
   Forall (fun u => covers x y u = false) (activeTargets g)).
Proof.
  pose proof (checkTargetHit_spec x y g) as Hspec. split.
  - intros i t. split.
    + intros H. rewrite H in Hspec. exact Hspec.
    + intros (Hi & Hc & Hlast).
      destruct (checkTargetHit x y g) as [[i' t']|].
      * destruct Hspec as (Hi' & Hc' & Hlast').
        destruct (Nat.lt_trichotomy i i') as [Hlt|[->|Hlt]].
        -- rewrite (Hlast _ _ Hlt Hi') in Hc'. discriminate.
        -- congruence.
        -- rewrite (Hlast' _ _ Hlt Hi) in Hc. discriminate.
      * rewrite Hspec in Hc; [discriminate|]. eapply list_elem_of_lookup_2, Hi.
  - split.
    + intros H. rewrite H in Hspec. now apply Forall_forall.
    + intros H. destruct (checkTargetHit x y g) as [[i t]|]; [|reflexivity].
      destruct Hspec as (Hi & Hc & _).
      rewrite Forall_forall in H. rewrite H in Hc; [discriminate|].
      eapply list_elem_of_lookup_2, Hi.
Qed.

(** X14.  [handleCanvasMouseMove] changes nothing but the [isHover] flags of
    the active targets, and nothing at all unless the session is running;
    in a running session it leaves each target in place and marks exactly
    the one [checkTargetHit] returns. *)
Theorem hover_marks_topmost x y g :
  let g' := handleCanvasMouseMove x y g in
  g' = g <| activeTargets := activeTargets g' |> /\
  (sessionState g <> Running -> g' = g) /\
  (sessionState g = Running ->
   length (activeTargets g') = length (activeTargets g) /\
   forall j u',
     activeTargets g' !! j = Some u' ->
     (exists u, activeTargets g !! j = Some u /\
                u' = u <| Target.isHover := Target.isHover u' |>) /\
     (Target.isHover u' = true <->
      exists t, checkTargetHit x y g = Some (j, t))).
Proof.
  intros g'. subst g'. unfold handleCanvasMouseMove, sessionState.
  destruct (isPlaying g) eqn:Hp, (isPaused g) eqn:Hq; simpl;
    try (split; [now destruct g|split; [reflexivity|discriminate]]).
  split; [reflexivity|]. split; [now intros []|]. intros _.
  split; [apply length_imap|]. intros j u' Hj.
  rewrite list_lookup_imap in Hj.
  destruct (activeTargets g !! j) as [u|] eqn:Hu; [|discriminate].
  injection Hj as <-. split; [exists u; split; reflexivity|]. simpl.
  rewrite bool_decide_eq_true.
  destruct (checkTargetHit x y g) as [[i t]|]; simpl.
  - split; [intros [= ->]; now exists t|intros (t' & [= -> ->]); reflexivity].
  - split; [discriminate|intros (t' & [=])].
Qed.

(** ** Keyboard, visibility and the selects *)

(** X15.  The keyboard, as far as the variables go: Space starts a session
    at rest ([startGame]), pauses a running one and resumes a paused one
    ([togglePause]); Escape pauses a running session and does nothing
    otherwise (it never resumes); R does nothing during a session, and at
    rest it resets the counters and ends in the ReferenceError of
    [resetGame]; any other key does nothing. *)
Theorem handleKeydown_transitions key g :
  sessionState (handleKeydown key g).1 =
    match key, sessionState g with
    | Space, Stopped => Running
    | Space, Running => Paused
    | Space, Paused => Running
    | Escape, Running => Paused
    | _, s => s
    end /\
  match key, sessionState g with
  | Escape, Stopped | Escape, Paused | KeyR, Running | KeyR, Paused
  | OtherKey, _ => handleKeydown key g = (g, Returned)
  | KeyR, Stopped =>
      handleKeydown key g = (resetGameState g, Threw ReferenceError)
  | Space, Stopped => (handleKeydown key g).1 = startGame g
  | Space, _ => (handleKeydown key g).1 = togglePause g
  | Escape, Running => (handleKeydown key g).1 = togglePause g
  end.
Proof.
  unfold sessionState.
  destruct key, (isPlaying g) eqn:Hp, (isPaused g) eqn:Hq;
    repeat autounfold with game; cases; simpl in *; try discriminate; auto.
Qed.

(** X16.  Hiding the page pauses a running session, cancelling the clock
    and the spawner, and does nothing to a paused or stopped one; showing
    the page again never resumes: after hide and show a session that was
    running is paused. *)
Theorem handleVisibilityChange_pauses_only g :
  handleVisibilityChange false g = g /\
  sessionState (handleVisibilityChange true g) =
    match sessionState g with Running => Paused | s => s end /\
  sessionState (handleVisibilityChange false (handleVisibilityChange true g)) =
    match sessionState g with Running => Paused | s => s end /\
  (sessionState g <> Running -> handleVisibilityChange true g = g) /\
  (sessionState g = Running ->
   handleVisibilityChange true g = togglePause g /\
   (timers_ok g -> only_expiries (handleVisibilityChange true g))).
Proof.
  unfold sessionState, handleVisibilityChange.
  destruct (isPlaying g) eqn:Hp, (isPaused g) eqn:Hq; simpl;
    repeat split; try discriminate; try congruence;
    rewrite ?Hp, ?Hq; try reflexivity;
    try (unfold togglePause, pauseGame, clearInterval; rewrite Hp, Hq;
         simpl; cases; now rewrite ?Hp);
    try (intros Hok; now apply togglePause_cancels).
Qed.

(** X17.  Over any single step, the difficulty changes only by the change
    event of its select, on an initialised page with no session in progress,
    and then to the selected value; the same holds for the mode. *)
Theorem settings_change_only_at_rest env e g :
  let g' := (step env e g).1 in
  (currentDifficulty g' <> currentDifficulty g ->
   isPlaying g = false /\ isInitialized g = true /\
   e = DifficultySelect (currentDifficulty g')) /\
  (currentMode g' <> currentMode g ->
   isPlaying g = false /\ isInitialized g = true /\
   e = ModeSelect (currentMode g')).
Proof.
  intros g'. subst g'. unfold step.
  destruct (isInitialized g) eqn:Hi;
    [|destruct (fromDom e) eqn:He; simpl;
      [split; intros H; now destruct H|]];
    rewrite ?andb_false_r;
    (destruct e as [| | |d|m|x y|x y|key|hidden|h|f]; try discriminate He;
     repeat autounfold with game; cases;
     split; intros H; try (now destruct H); simpl in *;
     repeat split; try reflexivity;
     try (apply negb_true_iff; assumption)).
Qed.

(** ** The percentage as a function of the counters *)

(** X18.  [updateAccuracy] as a function of the counters, for up to 200
    resolved targets: the percentage lies between 0 and 100, is 100 when
    nothing is resolved, and otherwise is the exact rounding of
    [100 * hit / total] or, when that value lies halfway between two
    integers, possibly the integer just below. *)
Theorem updateAccuracy_rounds g :
  0 <= targetsHit g -> 0 <= targetsMissed g ->
  targetsHit g + targetsMissed g <= 200 ->
  let a := accuracy (updateAccuracy g) in
  0 <= a <= 100 /\
  (targetsHit g + targetsMissed g = 0 -> a = 100) /\
  (0 < targetsHit g + targetsMissed g ->
   a = roundedPercentage (targetsHit g) (targetsMissed g) \/
   halfway (targetsHit g) (targetsMissed g) = true /\
   a = roundedPercentage (targetsHit g) (targetsMissed g) - 1).
Proof.
  intros Hh Hm Ht a.
  assert (a = percentage (targetsHit g) (targetsMissed g)) as -> by reflexivity.
  destruct (Z.eq_dec (targetsHit g + targetsMissed g) 0) as [H0|H0].
  - unfold percentage. rewrite H0. simpl. repeat split; try lia.
  - destruct (percentage_nearest (targetsHit g) (targetsMissed g))
      as [Hr Hn]; try lia.
    split; [exact Hr|]. split; [lia|]. intros _. exact Hn.
Qed.

Lemma updateAccuracy_rounds_witness :
  let a := accuracy (updateAccuracy (withCounters 23 17 page)) in
  0 <= a <= 100 /\ a = 57 /\ roundedPercentage 23 17 = 58 /\
  halfway 23 17 = true.
Proof.
  destruct (updateAccuracy_rounds (withCounters 23 17 page)) as (Hr & _ & _);
    try (simpl; lia).
  cbv zeta. split; [exact Hr|]. vm_compute. auto.
Defined.

(** ** A target from spawn to expiry *)

Lemma fresh_next g : fresh g -> timers g !! nextHandle g = None.
Proof.
  intros Hf. destruct (timers g !! nextHandle g) eqn:Hl; [|reflexivity].
  apply Hf in Hl. lia.
Qed.

Lemma findIndex_app_last {A : Type} (p : A -> bool) (l : list A) a :
  Forall (fun b => p b = false) l -> p a = true ->
  findIndex p (l ++ [a]) = Some (length l).
Proof.
  intros Hl Ha. induction Hl as [|b l Hb Hl IH]; simpl.
  - now rewrite Ha.
  - now rewrite Hb, IH.
Qed.

Lemma delete_last {A : Type} (l : list A) a : delete (length l) (l ++ [a]) = l.
Proof. induction l as [|b l IH]; simpl; [reflexivity|]. now f_equal. Qed.

(** X19.  A target from spawn to expiry: in a running session with a canvas,
    [spawnTarget] appends one unhovered target of the current difficulty's
    size and registers one expiry timeout carrying its id; if the id is a
    number that no active target carries, that timeout coming due restores
    the active targets and the timer table and counts one miss, leaving hits
    and score alone. *)
Theorem spawn_then_expire env env' g :
  isPlaying g = true -> isPaused g = false -> gameCanvas g = true ->
  fresh g ->
  let id := (Number.of_Z (now env) + random_id env)%float in
  (id =? id)%float = true ->
  Forall (fun t => has_id id t = false) (activeTargets g) ->
  let spawned := (spawnTarget env g).1 in
  let expired := (step env' (TimerFires (nextHandle g)) spawned).1 in
  (exists target,
     activeTargets spawned = activeTargets g ++ [target] /\
     Target.id target = id /\ Target.spawnTime target = now env /\
     sized g target /\ Target.isHover target = false) /\
  timers spawned = <[nextHandle g := ExpiryTimeout id]> (timers g) /\
  activeTargets expired = activeTargets g /\
  targetsMissed expired = targetsMissed g + 1 /\
  targetsHit expired = targetsHit g /\ score expired = score g /\
  timers expired = timers g.
Proof.
  intros Hp Hq Hc Hf id Hid Hnew spawned expired.
  subst expired. rewrite step_TimerFires. unfold fire.
  subst spawned. unfold spawnTarget. rewrite Hp, Hq, Hc. simpl.
  rewrite lookup_insert_eq. simpl.
  split; [eexists; split; [reflexivity|repeat split]|].
  split; [reflexivity|].
  unfold expireTarget. simpl.
  rewrite findIndex_app_last; [|exact Hnew|exact Hid]. simpl.
  rewrite delete_last. repeat split.
  rewrite delete_insert_id; [reflexivity|]. now apply fresh_next.
Qed.

Lemma spawn_then_expire_witness :
  let g := startGame page in
  let spawned := (spawnTarget (at_centre (t0 + 1000)) g).1 in
  let expired := (step (at_centre (t0 + 3000)) (TimerFires 3) spawned).1 in
  timers spawned !! 3%nat =
    Some (ExpiryTimeout (Target.id (centred (t0 + 1000)))) /\
  activeTargets expired = [] /\ targetsMissed expired = 1.
Proof.
  destruct page_ready as (Hp & Hok & Hf).
  destruct (spawn_then_expire (at_centre (t0 + 1000)) (at_centre (t0 + 3000))
              (startGame page))
    as (_ & Ht & Ha & Hm & _); try reflexivity.
  - apply (handle_fresh (at_centre t0) StartButton), Hf.
  - constructor.
  - cbv zeta. split; [rewrite Ht; vm_compute; reflexivity|].
    split; [exact Ha|exact Hm].
Defined.

(** ** The final score *)

Lemma endGame_score env g :
  score (endGame env g).1 =
    (score g + accuracy g * 10) * config.scoreMultiplier (currentDifficulty g) /\
  accuracy (endGame env g).1 = accuracy g /\
  currentDifficulty (endGame env g).1 = currentDifficulty g.
Proof. repeat autounfold with game; cases; auto. Qed.

(** X20.  When a session in progress is ended, by [endGame] or by the last
    tick of a timed session's clock, in any state a history reaches from the
    loaded page, the final score is 1000 times the difficulty's multiplier
    if the session had no miss, and 0 if it had one. *)
Theorem final_score_all_or_nothing width height item history env :
  let g := run history (loaded width height item) in
  let final :=
    if 0 <? targetsMissed g
    then 0 else 1000 * config.scoreMultiplier (currentDifficulty g) in
  (isPlaying g = true ->
   sessionState (endGame env g).1 = Stopped /\
   score (endGame env g).1 = final) /\
  (forall handle,
     isPlaying g = true -> timers g !! handle = Some ClockInterval ->
     currentMode g = timed -> timeLeft g <= 1 ->
     sessionState (step env (TimerFires handle) g).1 = Stopped /\
     score (step env (TimerFires handle) g).1 = final).
Proof.
  intros g final.
  destruct (no_points_core width height item history) as (Hs & Ha).
  fold g in Hs, Ha.
  assert (forall g0, score g0 = score g -> accuracy g0 = accuracy g ->
                     currentDifficulty g0 = currentDifficulty g ->
                     isPlaying g = true ->
                     sessionState (endGame env g0).1 = Stopped /\
                     score (endGame env g0).1 = final) as Hend.
  { intros g0 H1 H2 H3 Hp.
    destruct (endGame_stops env g0) as [Hstop _].
    destruct (endGame_score env g0) as (Hscore & _).
    split; [exact Hstop|]. rewrite Hscore, H1, H2, H3, (Hs Hp), Ha.
    subst final. destruct (0 <? targetsMissed g); lia. }
  split; [now apply Hend|].
  intros h Hp Hh Hm Ht. rewrite step_TimerFires. unfold fire. rewrite Hh.
  unfold clockTick. rewrite Hm. simpl.
  replace (timeLeft g - 1 <=? 0) with true by (symmetry; apply Z.leb_le; lia).
  now apply Hend.
Qed.

(** ** Scores in range *)

Lemma scoreMultiplier_range d : 1 <= config.scoreMultiplier d <= 5.
Proof. destruct d; simpl; lia. Qed.

Lemma final_modest s a d :
  s = 0 -> 0 <= a <= 100 ->
  0 <= (s + a * 10) * config.scoreMultiplier d <= 5000.
Proof. intros -> Ha. pose proof (scoreMultiplier_range d). nia. Qed.

Lemma modest_safe z : 0 <= z <= 5000 -> Number.isSafeInteger z.
Proof. unfold Number.isSafeInteger, Number.MAX_SAFE_INTEGER. simpl. lia. Qed.

Lemma tidy_saved l a :
  Forall (fun e => Number.isSafeInteger (Entry.score e)) l ->
  Number.isSafeInteger (Entry.score a) ->
  tidy (take 10 (Array_sort byScoreDesc (l ++ [a]))).
Proof.
  intros Hl Ha. split; [rewrite length_take; lia|]. split.
  - apply StronglySorted_take, Array_sort_descending.
  - apply Forall_take. rewrite Array_sort_Permutation.
    apply Forall_app. split; [exact Hl|]. now constructor.
Qed.

Lemma init_kept item g : own item -> kept item g -> kept item (init g).1.
Proof.
  intros Hitem (l & Hl & Ht & Hst). unfold init, loadLeaderboard.
  destruct (isInitialized g) eqn:Hi.
  - exists l. split; [exact Hl|split; [exact Ht|]].
    destruct Hst as [?|(? & ? & Hn)]; [now left|right; repeat split; auto].
  - simpl. destruct Hst as [Hst|(Hst & -> & _)].
    + rewrite Hst. simpl. exists l. auto.
    + rewrite Hst. destruct Hitem as [-> | (l0 & -> & Ht0)]; simpl.
      * exists []. simpl. rewrite Hl, Hst. auto 6.
      * exists l0. auto.
Qed.

(** [endGame] on a game whose leaderboard is kept, when the final score is
    a safe integer. *)
Lemma endGame_kept item env g :
  kept item g ->
  Number.isSafeInteger
    ((score g + accuracy g * 10) * config.scoreMultiplier (currentDifficulty g)) ->
  kept item (endGame env g).1.
Proof.
  intros (l & Hl & (Hlen & Hs & Hsafe) & Hst) Hfinal.
  unfold endGame.
  destruct (stopGame_frame g)
    as (Hs1 & _ & Hs3 & _ & _ & Hs6 & _ & Hs8 & _).
  rewrite (saveToLeaderboard_Entries env _ l)
    by (unfold calculateFinalScore; simpl; now rewrite Hs8).
  eexists. simpl. split; [reflexivity|]. split; [|now left].
  apply tidy_saved; [exact Hsafe|].
  unfold entryOf, calculateFinalScore. simpl. now rewrite Hs1, Hs3, Hs6.
Qed.

Lemma kept_frame item g g' :
  leaderboard g' = leaderboard g -> storage g' = storage g ->
  isInitialized g' = isInitialized g -> kept item g -> kept item g'.
Proof. unfold kept. intros -> -> ->. auto. Qed.

Lemma handle_sound env e g item :
  own item -> console e = false -> timers_ok g ->
  (isPlaying g = true -> score g = 0) -> 0 <= accuracy g <= 100 ->
  modest g /\ kept item g ->
  modest (handle env e g).1 /\ kept item (handle env e g).1.
Proof.
  intros Hitem He Hok Hs Ha [Hm Hk].
  assert (forall g0, score g0 = 0 -> accuracy g0 = accuracy g ->
                     kept item g0 ->
                     modest (endGame env g0).1 /\ kept item (endGame env g0).1)
    as Hend.
  { intros g0 H0 Hacc Hk0.
    pose proof (final_modest (score g0) (accuracy g0) (currentDifficulty g0) H0)
      as Hf. rewrite Hacc in Hf. specialize (Hf Ha). split.
    - unfold modest. destruct (endGame_score env g0) as (-> & _).
      now rewrite Hacc.
    - apply endGame_kept; [exact Hk0|]. rewrite Hacc. now apply modest_safe. }
  assert (forall g', score g' = score g \/ score g' = 0 ->
                     leaderboard g' = leaderboard g -> storage g' = storage g ->
                     isInitialized g' = isInitialized g ->
                     modest g' /\ kept item g') as Hframe.
  { intros g' Hsc H1 H2 H3. split; [|now apply (kept_frame item g)].
    unfold modest in *. destruct Hsc as [-> | ->]; lia. }
  destruct e as [| | |d|m|x y|x y|key|hidden|h|f]; try destruct f;
    try discriminate He;
    try (apply Hframe; repeat autounfold with game; cases; auto; fail).
  - simpl. unfold fire. destruct (timers g !! h) as [[| |id]|] eqn:Hl.
    + apply Hok, registered_running in Hl as (Hp & _ & _).
      unfold clockTick. destruct (currentMode g).
      * simpl. destruct (timeLeft g - 1 <=? 0).
        -- apply Hend; [now apply Hs|reflexivity|].
           now apply (kept_frame item g).
        -- now apply Hframe; auto.
      * now apply Hframe; auto.
    + apply Hframe; unfold spawnTarget; cases; auto.
    + apply Hframe; unfold expireTarget, updateAccuracy; cases; auto.
    + now apply Hframe; auto.
  - simpl. split; [|now apply init_kept].
    unfold modest, init, loadLeaderboard. cases; exact Hm.
Qed.

Lemma console_leaks e : console e = false -> leaks e = false.
Proof. destruct e as [| | | | | | | | | |[]]; simpl; congruence. Qed.

Lemma forallb_weaken {A : Type} (p q : A -> bool) (l : list A) :
  (forall a, p a = true -> q a = true) ->
  forallb p l = true -> forallb q l = true.
Proof.
  intros Hpq. induction l as [|a l IH]; simpl; [auto|].
  intros H. apply andb_true_iff in H as [Ha Hl].
  apply andb_true_iff. auto.
Qed.

Lemma without_console (history : list (Env * Event)) :
  forallb (fun ee => negb (console ee.2)) history = true ->
  forallb (fun ee => negb (leaks ee.2)) history = true.
Proof.
  apply forallb_weaken. intros [env e] H. simpl in *.
  apply negb_true_iff in H. apply negb_true_iff. now apply console_leaks.
Qed.

Lemma loaded_kept width height item : kept item (loaded width height item).
Proof.
  exists []. simpl. split; [reflexivity|]. split.
  - split; [simpl; lia|]. split; constructor.
  - right. repeat split. discriminate.
Qed.

Lemma run_snoc history env e g :
  run (history ++ [(env, e)]) g = (step env e (run history g)).1.
Proof. rewrite run_app. reflexivity. Qed.

(** On a page used through its listeners and timers, the score and the
    scores of the leaderboard stay where integers are exact. *)
Lemma run_sound width height item history :
  own item ->
  forallb (fun ee => negb (console ee.2)) history = true ->
  let g := run history (loaded width height item) in
  modest g /\ kept item g.
Proof.
  intros Hitem. induction history as [|[env e] history IH] using rev_ind;
    intros Hh.
  - split; [unfold modest; simpl; lia|apply loaded_kept].
  - rewrite forallb_app in Hh. apply andb_true_iff in Hh as [Hh He].
    simpl in He. rewrite andb_true_r in He. apply negb_true_iff in He.
    specialize (IH Hh). cbv zeta in *. rewrite run_snoc.
    set (g := run history (loaded width height item)) in *.
    destruct (step_handle env e g) as [-> | ->]; [exact IH|].
    destruct (no_points_core width height item history) as [Hs Ha].
    fold g in Hs, Ha.
    apply (handle_sound env e g item); auto.
    + apply run_timers_ok; [now apply without_console|apply loaded_timers_ok].
    + rewrite Ha. destruct (0 <? targetsMissed g); lia.
Qed.

(** X9.  When the page is loaded with nothing stored, or with an array of at
    most 10 entries in descending order whose scores are safe integers, and
    is then used through its listeners and timers (no direct call of the
    exported [pauseGame], [resumeGame] or [endGame]): the score stays
    between 0 and 5000; the leaderboard is an array of at most 10 entries in
    descending order with safe integer scores; and once the module is
    initialised, what is stored is again such an array or nothing, and a
    later page load reads back exactly the leaderboard in memory. *)
Theorem leaderboard_persisted width height item history :
  own item ->
  forallb (fun ee => negb (console ee.2)) history = true ->
  let g := run history (loaded width height item) in
  0 <= score g <= 5000 /\
  exists l,
    leaderboard g = Entries l /\ (length l <= 10)%nat /\
    StronglySorted descending l /\
    Forall (fun e => Number.isSafeInteger (Entry.score e)) l /\
    (isInitialized g = true ->
     (l = [] \/ storage g = Some (JsonText (Entries l))) /\
     own (storage g) /\
     forall width' height',
       (init (loaded width' height' (storage g))).2 = Returned /\
       leaderboard (init (loaded width' height' (storage g))).1 = Entries l).
Proof.
  intros Hitem Hh g.
  destruct (run_sound width height item history Hitem Hh)
    as [Hm (l & Hl & (Hlen & Hs & Hsafe) & Hst)].
  fold g in Hm, Hl, Hst. split; [exact Hm|].
  exists l. split; [exact Hl|]. split; [exact Hlen|].
  split; [exact Hs|]. split; [exact Hsafe|]. intros Hi.
  destruct Hst as [Hst|(Hst & -> & Hn)].
  - rewrite Hst. split; [now right|].
    split; [right; exists l; repeat split; auto|].
    intros w h. now split.
  - rewrite Hst, (Hn Hi). split; [now left|]. split; [now left|].
    intros w h. now split.
Qed.

Lemma leaderboard_persisted_witness :
  let g := run played_visit (loaded 200 200 stored_result) in
  sessionState g = Stopped /\
  exists l,
    leaderboard g = Entries l /\ Entry.score <$> l = [2000; 0] /\
    leaderboard (init (loaded 300 300 (storage g))).1 = Entries l.
Proof.
  assert (own stored_result) as Hown.
  { right. eexists. split; [reflexivity|].
    split; [simpl; lia|]. split; repeat constructor;
      unfold Number.MAX_SAFE_INTEGER; simpl; lia. }
  destruct (leaderboard_persisted 200 200 stored_result played_visit Hown)
    as (_ & l & Hl & _ & _ & _ & Hinit); [vm_compute; reflexivity|].
  split; [vm_compute; reflexivity|].
  exists l. split; [exact Hl|].
  split; [vm_compute in Hl; injection Hl as <-; reflexivity|].
  apply Hinit. vm_compute. reflexivity.
Defined.

(** ** Cancellation on the page *)

Ltac table H :=
  repeat first
    [ apply lookup_delete_Some in H as [? H]
    | apply lookup_insert_Some in H as [[? ?]|[? H]] ].

Lemma handle_held env e g : fresh g -> held g -> held (handle env e g).1.
Proof.
  unfold held. intros Hf Hh.
  destruct e as [| | |d|m|x y|x y|key|hidden|h|f];
    repeat autounfold with game; cases; try assumption;
    intros h' Hg; simpl in *;
    (destruct Hg as [Hg|Hg];
     try (injection Hg as <-;
          split; [lia|intros id Hl; table Hl; subst; try discriminate; lia]);
     try (destruct (Hh h') as [Hlt Hne]; [first [left; congruence|right; congruence]|];
      split; [lia|intros id Hl; table Hl; subst; try discriminate; try lia;
                  now apply (Hne id)])).
Qed.

Lemma loaded_held width height item : held (loaded width height item).
Proof. intros h [H|H]; discriminate. Qed.

Lemma run_held width height item history :
  fresh (run history (loaded width height item)) /\
  held (run history (loaded width height item)).
Proof.
  apply (run_invariant (fun g => fresh g /\ held g)).
  - intros env e g [Hf Hh]. split; [now apply handle_fresh|now apply handle_held].
  - split; [apply loaded_fresh|apply loaded_held].
Qed.

(** [clearInterval] on the two handles the module holds leaves the expiry
    timeouts in the table. *)
Lemma pauseGame_still_pending g : held g -> still_pending g (pauseGame g).
Proof.
  intros Hh h id Hl.
  assert (forall c, gameTimer g = Some c \/ targetSpawnTimer g = Some c ->
                    c <> h) as Hne.
  { intros c Hc ->. destruct (Hh h Hc) as [_ Hne]. now apply (Hne id). }
  unfold pauseGame, clearInterval.
  destruct (gameTimer g) as [c|] eqn:Hc; simpl;
    destruct (targetSpawnTimer g) as [s|] eqn:Hs; simpl;
    rewrite ?lookup_delete_ne by auto; exact Hl.
Qed.

Lemma togglePause_still_pending g :
  held g -> isPlaying g = true -> isPaused g = false ->
  still_pending g (togglePause g).
Proof.
  intros Hh Hp Hq. unfold togglePause. rewrite Hp, Hq. simpl.
  intros h id Hl.
  set (g0 := g <| isPaused := true |>).
  assert (held g0) as Hh0 by exact Hh.
  exact (pauseGame_still_pending g0 Hh0 h id Hl).
Qed.

Lemma stopGame_still_pending g : held g -> still_pending g (stopGame g).
Proof.
  intros Hh h id Hl. unfold stopGame.
  destruct (isPlaying g); [|exact Hl]. simpl.
  set (g0 := g <| isPlaying := false |> <| isPaused := false |>).
  assert (held g0) as Hh0 by exact Hh.
  exact (pauseGame_still_pending g0 Hh0 h id Hl).
Qed.

Lemma resetGame_still_pending g : held g -> still_pending g (resetGame g).1.
Proof. intros Hh h id Hl. now apply stopGame_still_pending. Qed.

Lemma endGame_still_pending env g :
  held g -> still_pending g (endGame env g).1.
Proof.
  intros Hh h id Hl. unfold endGame.
  destruct (saveToLeaderboard_frame env (calculateFinalScore (stopGame g)))
    as (_ & _ & _ & _ & _ & _ & _ & _ & ->).
  now apply stopGame_still_pending.
Qed.



(** ** The final score of a session on the page *)



